(** * hello-fresh-scrape: package recipe

    A shallow embedding of package [recipe] (the scanner [parseRecipeProps],
    the navigator [ScrapeRecipes], the resolver [YieldIDsToNames] with its
    helper [ingredientName]) and the properties of its specification.

    Conventions.
    - A Go [[]byte] is a [list byte]; [string(b)] is [string_of_list_byte b].
    - A Go [int] is a [Z], a [float64] is a [spec_float], a [time.Time] is the
      instant it denotes; the package only carries these values around.
    - A Go [map[string]int] is a [gmap string Z].
    - A Go result pair [(v, err)] is a Rocq pair whose second component is an
      [option error]; [nil] is [None], and a [nil] slice is [[]].
    - The libraries the package calls ([net/http], [encoding/json] and the
      tokenizer of [golang.org/x/net/html]) are not part of the package:
      the first two are the fields of the class [Env], the third is the
      token list of a [Document], read through [TagName] and [TagAttr].
    - The source holds the package at several revisions. They agree on
      [parseRecipeProps], [YieldIDsToNames] and [ingredientName], and on
      [ScrapeRecipes] up to the page address, a constant in the earlier
      revision (followed here) and an argument in the later one
      ([ScrapeRecipesAt]). [Collections] is of the later revision, and
      [main] is the command of the last one. *)

From Stdlib Require Import ZArith Lia Bool.
From Stdlib Require Import Strings.Byte Strings.String.
From Stdlib Require Import Floats.SpecFloat.
From stdpp Require Import base option list strings gmap.

Local Open Scope string_scope.
Local Open Scope list_scope.
Local Open Scope stdpp_scope.

(** ** Errors *)

(** What ends a token stream: [z.Err()] is [io.EOF] once the reader is
    exhausted, or the error of the reader (or of the tokenizer's buffer). *)
Inductive StreamError : Type :=
| io_EOF
| io_failure (msg : string).

(** The [error] values that travel through the package. *)
Inductive error : Type :=
| stream_error (e : StreamError)   (* z.Err() *)
| http_error (msg : string)        (* from http.Get *)
| json_error (msg : string)        (* from json.Unmarshal *)
| errors_New (msg : string).       (* errors.New(msg), made by this package *)

(** A call that returns normally, or a run-time panic. *)
Inductive outcome (A : Type) : Type :=
| Returned (a : A)
| Panicked (msg : string).
Arguments Returned {A} a.
Arguments Panicked {A} msg.

(** ** The token stream of [html.Tokenizer] *)

Definition bytes : Type := list byte.

Definition Attribute : Type := (bytes * bytes)%type.

(** The tokens [z.Next()] hands out before the final [html.ErrorToken].
    Tag names and attribute keys are lower-cased by the tokenizer. *)
Inductive Token : Type :=
| TextToken (text : bytes)
| StartTagToken (name : bytes) (attr : list Attribute)
| EndTagToken (name : bytes)
| SelfClosingTagToken (name : bytes) (attr : list Attribute)
| CommentToken (text : bytes)
| DoctypeToken (text : bytes).

(** An [io.Reader] holding a document, as the tokenizer reads it: the tokens
    in document order, then [html.ErrorToken] with [Err] for ever. *)
Record Document : Type := {
  Tokens : list Token;
  Err : StreamError
}.

(** [z.TagName()] on a tag token with name [name] and unread attributes
    [attr]: the name, and whether the tag has attributes. *)
Definition TagName (name : bytes) (attr : list Attribute) : bytes * bool :=
  (name, (0 <? length attr)%nat).

(** [z.TagAttr()]: the next unread attribute and whether more follow, with
    the attributes left to read; [nil, nil, false] when none is left. *)
Definition TagAttr (attr : list Attribute) : (bytes * bytes * bool) * list Attribute :=
  match attr with
  | [] => (([], [], false), [])
  | (k, v) :: rest => ((k, v, (0 <? length rest)%nat), rest)
  end.

(** ** The recipe model *)

Definition float64 : Type := spec_float.
Definition Time : Type := Z.

Module Category.
Record t : Type := {
  ID : string;
  Type_ : string;
  Name : string;
  Slug : string;
  IconLink : string;
  IconPath : string;
  Usage : Z
}.

Definition zero : t :=
  {| ID := ""; Type_ := ""; Name := ""; Slug := ""; IconLink := "";
     IconPath := ""; Usage := 0%Z |}.
End Category.

Module Nutrition.
Record t : Type := {
  Type_ : string;
  Name : string;
  Amount : float64;
  Unit : string
}.
End Nutrition.

Module IngredientFamily.
Record t : Type := {
  ID : string;
  Type_ : string;
  Description : string;
  Priority : Z;
  IconLink : string;
  IconPath : string;
  UsageByCountry : gmap string Z;
  CreatedAt : Time;
  UpdatedAt : Time;
  UUID : string;
  Name : string;
  Slug : string
}.

Definition zero : t :=
  {| ID := ""; Type_ := ""; Description := ""; Priority := 0%Z; IconLink := "";
     IconPath := ""; UsageByCountry := ∅; CreatedAt := 0%Z; UpdatedAt := 0%Z;
     UUID := ""; Name := ""; Slug := "" |}.
End IngredientFamily.

Module Ingredient.
Record t : Type := {
  Country : string;
  ID : string;
  Type_ : string;
  Name : string;
  Slug : string;
  Description : string;
  InternalName : string;
  Shipped : bool;
  ImageLink : string;
  ImagePath : string;
  Usage : Z;
  HasDuplicatedName : bool;
  Allergens : list string;
  Family : IngredientFamily.t;
  UUID : string
}.

(** An ingredient with the given [ID] and [Name], zero elsewhere. *)
Definition make (id name : string) : t :=
  {| Country := ""; ID := id; Type_ := ""; Name := name; Slug := "";
     Description := ""; InternalName := ""; Shipped := false; ImageLink := "";
     ImagePath := ""; Usage := 0%Z; HasDuplicatedName := false; Allergens := [];
     Family := IngredientFamily.zero; UUID := "" |}.
End Ingredient.

Module Allergen.
Record t : Type := {
  ID : string;
  Type_ : string;
  Description : string;
  TracesOf : bool;
  TriggersTracesOf : bool;
  IconLink : string;
  IconPath : string;
  Usage : Z;
  Name : string;
  Slug : string
}.
End Allergen.

Module Utensil.
Record t : Type := {
  ID : string;
  Type_ : string;
  Name : string
}.
End Utensil.

Module Tag.
Record t : Type := {
  ID : string;
  Type_ : string;
  IconLink : string;
  IconPath : string;
  NumberOfRecipes : Z;
  NumberOfRecipesByCountry : gmap string Z;
  ColorHandle : string;
  Preferences : list string;
  Name : string;
  Slug : string;
  DisplayLabel : bool
}.
End Tag.

Module Cuisine.
Record t : Type := {
  ID : string;
  Type_ : string;
  IconLink : string;
  IconPath : string;
  Usage : Z;
  Name : string;
  Slug : string
}.
End Cuisine.

Module IngredientYield.
Record t : Type := {
  ID : string;
  Amount : float64;
  Unit : string
}.

(** The assignment [x.ID = name]. *)
Definition set_ID (name : string) (x : t) : t :=
  {| ID := name; Amount := Amount x; Unit := Unit x |}.
End IngredientYield.

Module Yield.
Record t : Type := {
  Yields : Z;
  Ingredients : list IngredientYield.t
}.

(** The yield whose [Ingredients] array now holds [a]. *)
Definition with_Ingredients (a : list IngredientYield.t) (y : t) : t :=
  {| Yields := Yields y; Ingredients := a |}.
End Yield.

Module Recipe.
Record t : Type := {
  ID : string;
  Country : string;
  Name : string;
  SeoName : string;
  Category : Category.t;
  Slug : string;
  Headline : string;
  Description : string;
  DescriptionHTML : string;
  DescriptionMarkdown : string;
  SeoDescription : string;
  Comment : string;
  Difficulty : Z;
  PrepTime : string;
  TotalTime : string;
  ServingSize : Z;
  CreatedAt : Time;
  UpdatedAt : Time;
  Link : string;
  ImageLink : string;
  ImagePath : string;
  CardLink : string;
  VideoLink : string;
  Nutrition : list Nutrition.t;
  Ingredients : list Ingredient.t;
  Allergens : list Allergen.t;
  Utensils : list Utensil.t;
  Tags : list Tag.t;
  Cuisines : list Cuisine.t;
  Yields : list Yield.t
}.

(** The recipe whose [Yields] array now holds [ys]. *)
Definition with_Yields (ys : list Yield.t) (r : t) : t :=
  {| ID := ID r; Country := Country r; Name := Name r; SeoName := SeoName r;
     Category := Category r; Slug := Slug r; Headline := Headline r;
     Description := Description r; DescriptionHTML := DescriptionHTML r;
     DescriptionMarkdown := DescriptionMarkdown r;
     SeoDescription := SeoDescription r; Comment := Comment r;
     Difficulty := Difficulty r; PrepTime := PrepTime r;
     TotalTime := TotalTime r; ServingSize := ServingSize r;
     CreatedAt := CreatedAt r; UpdatedAt := UpdatedAt r; Link := Link r;
     ImageLink := ImageLink r; ImagePath := ImagePath r;
     CardLink := CardLink r; VideoLink := VideoLink r;
     Nutrition := Nutrition r; Ingredients := Ingredients r;
     Allergens := Allergens r; Utensils := Utensils r; Tags := Tags r;
     Cuisines := Cuisines r; Yields := ys |}.

(** A recipe with the given [ID], [Ingredients] and [Yields], zero elsewhere. *)
Definition make (id : string) (ingreds : list Ingredient.t) (ys : list Yield.t) : t :=
  {| ID := id; Country := ""; Name := ""; SeoName := "";
     Category := Category.zero; Slug := ""; Headline := ""; Description := "";
     DescriptionHTML := ""; DescriptionMarkdown := ""; SeoDescription := "";
     Comment := ""; Difficulty := 0%Z; PrepTime := ""; TotalTime := "";
     ServingSize := 0%Z; CreatedAt := 0%Z; UpdatedAt := 0%Z; Link := "";
     ImageLink := ""; ImagePath := ""; CardLink := ""; VideoLink := "";
     Nutrition := []; Ingredients := ingreds; Allergens := []; Utensils := [];
     Tags := []; Cuisines := []; Yields := ys |}.
End Recipe.

Definition Recipes : Type := list Recipe.t.

(** ** The JSON envelope *)

Definition RawMessage : Type := bytes.

Record State_t : Type := { Data : RawMessage }.
Record Query_t : Type := { State : State_t }.
Record DehydratedState_t : Type := { Queries : list Query_t }.
Record SSRPayload_t : Type := { DehydratedState : DehydratedState_t }.
Record PageProps_t : Type := { SSRPayload : SSRPayload_t }.
Record Props_t : Type := { PageProps : PageProps_t }.
Record payload : Type := { Props : Props_t }.

Record data : Type := { Items : list Recipe.t }.

(** The library calls of [ScrapeRecipes]: the response of [http.Get] (its
    body as the tokenizer will read it) and [json.Unmarshal] at the two
    types the package decodes into. *)
Class Env : Type := {
  http_Get : string -> Document + error;
  json_Unmarshal_payload : bytes -> payload + error;
  json_Unmarshal_data : RawMessage -> data + error
}.

(** ** parseRecipeProps *)

(** The body of [case html.StartTagToken]: the value of [isRecipeProps]
    after a start tag with name [name] and attributes [attr]. *)
Definition startTag (isRecipeProps : bool) (name : bytes) (attr : list Attribute) : bool :=
  let '(tn, hasAttr) := TagName name attr in
  if String.eqb (string_of_list_byte tn) "script" && hasAttr then
    let '((k, v, moreAttr), attr1) := TagAttr attr in
    if String.eqb (string_of_list_byte k) "id"
       && String.eqb (string_of_list_byte v) "__NEXT_DATA__" && moreAttr then
      let '((k, v, _), _) := TagAttr attr1 in
      if String.eqb (string_of_list_byte k) "type"
         && String.eqb (string_of_list_byte v) "application/json" then
        true
      else isRecipeProps
    else isRecipeProps
  else isRecipeProps.

(** The [for] loop of [parseRecipeProps], one iteration per token. The loop
    has no [break]: it is left only by the two [return]s inside it. *)
Fixpoint parseLoop (err : StreamError) (isRecipeProps : bool) (toks : list Token)
  : bytes * option error :=
  match toks with
  | [] => ([], Some (stream_error err))
  | TextToken text :: rest =>
      if isRecipeProps then (text, None) else parseLoop err isRecipeProps rest
  | StartTagToken name attr :: rest =>
      parseLoop err (startTag isRecipeProps name attr) rest
  | _ :: rest => parseLoop err isRecipeProps rest
  end.

Definition parseRecipeProps (r : Document) : bytes * option error :=
  parseLoop (Err r) false (Tokens r).

(** The statement after the loop, which no path reaches. *)
Definition errNotFound : error := errors_New "recipe props data not found".

(** ** ScrapeRecipes *)

(** The indexing [Data[0]]: [None] is the run-time panic of an index out of
    range, which the code does not guard against. *)
Definition index0 (d : RawMessage) : option byte := d !! 0%nat.

Definition indexPanic : string := "runtime error: index out of range [0] with length 0".

(** The loop over [p.Props.PageProps.SSRPayload.DehydratedState.Queries];
    [rs] is the slice accumulated so far. *)
Fixpoint scrapeQueries `{Env} (rs : Recipes) (qs : list Query_t)
  : outcome (Recipes * option error) :=
  match qs with
  | [] => Returned (rs, None)
  | q :: rest =>
      match index0 (Data (State q)) with
      | None => Panicked indexPanic
      | Some c =>
          if Byte.eqb c "{"%byte then
            match json_Unmarshal_data (Data (State q)) with
            | inr err => Returned ([], Some err)
            | inl d =>
                if (0 <? length (Items d))%nat
                then scrapeQueries (rs ++ Items d) rest
                else scrapeQueries rs rest
            end
          else scrapeQueries rs rest
      end
  end.

Definition ScrapeRecipes `{Env} : outcome (Recipes * option error) :=
  match http_Get "https://www.hellofresh.com/recipes" with
  | inr err => Returned ([], Some err)
  | inl body =>
      match parseRecipeProps body with
      | (_, Some err) => Returned ([], Some err)
      | (b, None) =>
          match json_Unmarshal_payload b with
          | inr err => Returned ([], Some err)
          | inl p =>
              scrapeQueries [] (Queries (DehydratedState (SSRPayload (PageProps (Props p)))))
          end
      end
  end.

(** ** YieldIDsToNames

    A batch decoded by [ScrapeRecipes] owns each of its arrays: no two slices
    of it share storage. The batch is therefore a value, and a call is a
    function from the batch before to the batch after and the error
    returned. *)

Fixpoint ingredientName (id : string) (ingreds : list Ingredient.t) : string * option error :=
  match ingreds with
  | [] => ("", Some (errors_New ("id " +:+ id +:+ " not found in ingredients list")))
  | ingred :: rest =>
      if String.eqb id (Ingredient.ID ingred)
      then (Ingredient.Name ingred, None)
      else ingredientName id rest
  end.

(** The innermost loop, [for i, ingred := range ys.Ingredients], from index
    [i] on with [n] iterations to go; [a] is the array of [ys.Ingredients],
    written by [ys.Ingredients[i].ID = name]. *)
Fixpoint rangeIngredients (ingreds : list Ingredient.t) (n i : nat)
  (a : list IngredientYield.t) : list IngredientYield.t * option error :=
  match n with
  | O => (a, None)
  | S n' =>
      match a !! i with
      | None => (a, None)
      | Some ingred =>
          match ingredientName (IngredientYield.ID ingred) ingreds with
          | (_, Some err) => (a, Some err)
          | (name, None) =>
              rangeIngredients ingreds n' (S i) (alter (IngredientYield.set_ID name) i a)
          end
      end
  end.

(** The middle loop, [for _, ys := range r.Yields]. *)
Fixpoint rangeYields (ingreds : list Ingredient.t) (ys : list Yield.t)
  : list Yield.t * option error :=
  match ys with
  | [] => ([], None)
  | y :: rest =>
      match rangeIngredients ingreds (length (Yield.Ingredients y)) 0 (Yield.Ingredients y) with
      | (a, Some err) => (Yield.with_Ingredients a y :: rest, Some err)
      | (a, None) =>
          let '(rest', err) := rangeYields ingreds rest in
          (Yield.with_Ingredients a y :: rest', err)
      end
  end.

(** The outer loop, [for _, r := range rs]: the batch after the call, and
    the error returned. *)
Fixpoint YieldIDsToNames (rs : Recipes) : Recipes * option error :=
  match rs with
  | [] => ([], None)
  | r :: rest =>
      match rangeYields (Recipe.Ingredients r) (Recipe.Yields r) with
      | (ys, Some err) => (Recipe.with_Yields ys r :: rest, Some err)
      | (ys, None) =>
          let '(rest', err) := YieldIDsToNames rest in
          (Recipe.with_Yields ys r :: rest', err)
      end
  end.

(** ** Vocabulary of the specification *)

Definition B (s : string) : bytes := list_byte_of_string s.

(** A start tag that arms the scanner: a [script] whose first attribute is
    [id="__NEXT_DATA__"] and whose second is [type="application/json"]. *)
Definition arms (t : Token) : bool :=
  match t with
  | StartTagToken name attr => startTag false name attr
  | _ => false
  end.

Definition isText (t : Token) : bool :=
  match t with
  | TextToken _ => true
  | _ => false
  end.

(** A [script] start tag that carries both sentinel attributes, wherever
    they stand among its attributes. *)
Definition isSentinel (t : Token) : Prop :=
  match t with
  | StartTagToken name attr =>
      name = B "script" /\ In (B "id", B "__NEXT_DATA__") attr
      /\ In (B "type", B "application/json") attr
  | _ => False
  end.

Definition recipesURL : string := "https://www.hellofresh.com/recipes".

Definition queriesOf (p : payload) : list Query_t :=
  Queries (DehydratedState (SSRPayload (PageProps (Props p)))).

(** [p] is the envelope [ScrapeRecipes] decodes: the page is fetched, the
    scanner returns bytes, and the bytes decode to [p]. *)
Definition envelope `{Env} (p : payload) : Prop :=
  exists body b, http_Get recipesURL = inl body
    /\ parseRecipeProps body = (b, None)
    /\ json_Unmarshal_payload b = inl p.

Definition nonEmpty (q : Query_t) : Prop := Data (State q) <> [].

(** The first-byte filter of the navigator. *)
Definition isObject (q : Query_t) : bool :=
  match Data (State q) with
  | c :: _ => Byte.eqb c "{"%byte
  | [] => false
  end.

(** The recipes a query entry holds when it decodes. *)
Definition itemsOf `{Env} (q : Query_t) : list Recipe.t :=
  match json_Unmarshal_data (Data (State q)) with
  | inl d => Items d
  | inr _ => []
  end.

(** An entry that passes the filter decodes as a recipe collection. *)
Definition decodes `{Env} (q : Query_t) : Prop :=
  isObject q = true -> exists d, json_Unmarshal_data (Data (State q)) = inl d.

(** An entry that passes the filter and fails to decode. *)
Definition undecodable `{Env} (q : Query_t) : Prop :=
  isObject q = true /\ exists e, json_Unmarshal_data (Data (State q)) = inr e.

(** The name of the first ingredient of [ingreds] whose [ID] is [id]. *)
Definition firstName (id : string) (ingreds : list Ingredient.t) : option string :=
  Ingredient.Name <$> List.find (fun ingred => String.eqb id (Ingredient.ID ingred)) ingreds.

(** An entry resolved against [ingreds]; an entry without a match is kept. *)
Definition resolveEntry (ingreds : list Ingredient.t) (x : IngredientYield.t) : IngredientYield.t :=
  match firstName (IngredientYield.ID x) ingreds with
  | Some name => IngredientYield.set_ID name x
  | None => x
  end.

Definition resolveYield (ingreds : list Ingredient.t) (y : Yield.t) : Yield.t :=
  Yield.with_Ingredients (map (resolveEntry ingreds) (Yield.Ingredients y)) y.

(** A recipe with every yield entry resolved against its own ingredients. *)
Definition resolveRecipe (r : Recipe.t) : Recipe.t :=
  Recipe.with_Yields (map (resolveYield (Recipe.Ingredients r)) (Recipe.Yields r)) r.

(** An identifier that some ingredient of [ingreds] carries. *)
Definition known (ingreds : list Ingredient.t) (id : string) : Prop :=
  In id (map Ingredient.ID ingreds).

Definition knownEntry (ingreds : list Ingredient.t) (x : IngredientYield.t) : Prop :=
  known ingreds (IngredientYield.ID x).

Definition resolvableYield (ingreds : list Ingredient.t) (y : Yield.t) : Prop :=
  Forall (knownEntry ingreds) (Yield.Ingredients y).

(** Every yield entry of [r] names an ingredient of [r]. *)
Definition resolvableRecipe (r : Recipe.t) : Prop :=
  Forall (resolvableYield (Recipe.Ingredients r)) (Recipe.Yields r).

(** Some yield entry of the batch names no ingredient of its own recipe. *)
Definition unresolved (rs : Recipes) : Prop :=
  Exists (fun r =>
    Exists (fun y => Exists (fun x => ~ knownEntry (Recipe.Ingredients r) x)
                       (Yield.Ingredients y))
      (Recipe.Yields r)) rs.

(** The error of [ingredientName] for the identifier [id]. *)
Definition errUnknownID (id : string) : error :=
  errors_New ("id " +:+ id +:+ " not found in ingredients list").

(** A position in a batch: entry [x] of yield [y] of recipe [r], with what
    stands before and after each of them. *)
Module Position.
Record t : Type := {
  pre : list Recipe.t; r : Recipe.t; post : list Recipe.t;
  ypre : list Yield.t; y : Yield.t; ypost : list Yield.t;
  epre : list IngredientYield.t; x : IngredientYield.t;
  epost : list IngredientYield.t
}.
End Position.

(** [f] is the first entry of [rs], in the order of the three loops, that
    names no ingredient of its own recipe. *)
Definition firstUnknown (rs : Recipes) (f : Position.t) : Prop :=
  let ingreds := Recipe.Ingredients (Position.r f) in
  rs = Position.pre f ++ Position.r f :: Position.post f
  /\ Recipe.Yields (Position.r f)
     = Position.ypre f ++ Position.y f :: Position.ypost f
  /\ Yield.Ingredients (Position.y f)
     = Position.epre f ++ Position.x f :: Position.epost f
  /\ Forall resolvableRecipe (Position.pre f)
  /\ Forall (resolvableYield ingreds) (Position.ypre f)
  /\ Forall (knownEntry ingreds) (Position.epre f)
  /\ ~ knownEntry ingreds (Position.x f).

(** The batch in which everything before [f] is resolved and [f] and
    everything after it is as it was. *)
Definition stoppedAt (f : Position.t) : Recipes :=
  let ingreds := Recipe.Ingredients (Position.r f) in
  map resolveRecipe (Position.pre f)
  ++ Recipe.with_Yields
       (map (resolveYield ingreds) (Position.ypre f)
        ++ Yield.with_Ingredients
             (map (resolveEntry ingreds) (Position.epre f)
              ++ Position.x f :: Position.epost f) (Position.y f)
        :: Position.ypost f) (Position.r f)
  :: Position.post f.

(** A batch with [IngredientYield.ID] blanked everywhere: two batches with
    the same image differ in those fields at most. *)
Definition eraseYield (y : Yield.t) : Yield.t :=
  Yield.with_Ingredients (map (IngredientYield.set_ID "") (Yield.Ingredients y)) y.

Definition eraseRecipe (r : Recipe.t) : Recipe.t :=
  Recipe.with_Yields (map eraseYield (Recipe.Yields r)) r.

Definition eraseIDs (rs : Recipes) : Recipes := map eraseRecipe rs.

(** The amount and unit of every yield entry of a batch. *)
Definition quantities (rs : Recipes) : list (list (list (float64 * string))) :=
  map (fun r =>
    map (fun y =>
      map (fun x => (IngredientYield.Amount x, IngredientYield.Unit x))
        (Yield.Ingredients y))
      (Recipe.Yields r)) rs.

(** ** Fixtures

    Concrete documents, envelopes and batches on which the theorems below
    are exercised. *)

Definition scriptTag (attr : list Attribute) : Token := StartTagToken (B "script") attr.

Definition sentinelTag : Token :=
  scriptTag [(B "id", B "__NEXT_DATA__"); (B "type", B "application/json")].

(** The sentinel attributes in the other order. *)
Definition swappedTag : Token :=
  scriptTag [(B "type", B "application/json"); (B "id", B "__NEXT_DATA__")].

(** A JSON string literal. *)
Definition jsonString (s : string) : bytes := x22 :: B s ++ [x22].

(** The tokens of [<html><body><p>hi</p></body></html>]. *)
Definition plainDoc : Document :=
  {| Tokens := [StartTagToken (B "html") []; StartTagToken (B "body") [];
                StartTagToken (B "p") []; TextToken (B "hi");
                EndTagToken (B "p"); EndTagToken (B "body");
                EndTagToken (B "html")];
     Err := io_EOF |}.

(** A page whose only script carries [type] before [id]. *)
Definition swappedDoc : Document :=
  {| Tokens := [StartTagToken (B "html") []; swappedTag; TextToken (B "{}");
                EndTagToken (B "script"); EndTagToken (B "html")];
     Err := io_EOF |}.

Definition pagePrefix : list Token :=
  [DoctypeToken (B "html"); StartTagToken (B "html") [];
   StartTagToken (B "head") [];
   scriptTag [(B "src", B "/a.js")]; EndTagToken (B "script");
   scriptTag []; TextToken (B "var x = 1"); EndTagToken (B "script")].

Definition pageSuffix : list Token :=
  [EndTagToken (B "script");
   scriptTag [(B "type", B "text/javascript")]; TextToken (B "var y = 2");
   EndTagToken (B "script"); EndTagToken (B "head"); EndTagToken (B "html")].

Definition pageJSON : bytes := B "{" ++ jsonString "props" ++ B ":{}}".

(** A page with the sentinel script between two other scripts. *)
Definition pageDoc : Document :=
  {| Tokens := pagePrefix ++ sentinelTag :: TextToken pageJSON :: pageSuffix;
     Err := io_EOF |}.

Definition entry (id : string) : IngredientYield.t :=
  {| IngredientYield.ID := id;
     IngredientYield.Amount := S754_finite false 1 1;
     IngredientYield.Unit := "pcs" |}.

Definition yieldOf (ids : list string) : Yield.t :=
  {| Yield.Yields := 2; Yield.Ingredients := map entry ids |}.

(** Two recipes that both call an ingredient [i1], under different names. *)
Definition recipeA : Recipe.t :=
  Recipe.make "A" [Ingredient.make "i1" "Egg"] [yieldOf ["i1"]].

Definition recipeB : Recipe.t :=
  Recipe.make "B" [Ingredient.make "i1" "Flour"] [yieldOf ["i1"]].

(** A recipe whose second yield entry names no ingredient of it. *)
Definition recipeC : Recipe.t :=
  Recipe.make "C" [Ingredient.make "i1" "Egg"] [yieldOf ["i1"; "i2"; "i1"]].

Definition batchAB : Recipes := [recipeA; recipeB].

Definition batchACB : Recipes := [recipeA; recipeC; recipeB].

Definition positionC : Position.t :=
  {| Position.pre := [recipeA]; Position.r := recipeC; Position.post := [recipeB];
     Position.ypre := []; Position.y := yieldOf ["i1"; "i2"; "i1"];
     Position.ypost := [];
     Position.epre := [entry "i1"]; Position.x := entry "i2";
     Position.epost := [entry "i1"] |}.

Fixpoint jsonObjects (ids : list string) : bytes :=
  match ids with
  | [] => []
  | [id] => B "{" ++ jsonString "id" ++ B ":" ++ jsonString id ++ B "}"
  | id :: rest =>
      B "{" ++ jsonString "id" ++ B ":" ++ jsonString id ++ B "}," ++ jsonObjects rest
  end.

(** The raw message of an object with an [items] list of the given ids. *)
Definition jsonItems (ids : list string) : RawMessage :=
  B "{" ++ jsonString "items" ++ B ":[" ++ jsonObjects ids ++ B "]}".

(** An object whose [items] is a number: it passes the filter and does not
    decode. *)
Definition rawBad : RawMessage := B "{" ++ jsonString "items" ++ B ":7}".

Definition sameBytes (a b : bytes) : bool :=
  String.eqb (string_of_list_byte a) (string_of_list_byte b).

(** A decoder that knows the raw messages of the fixtures and rejects
    everything else. *)
Definition fixture_Unmarshal_data (raw : RawMessage) : data + error :=
  if sameBytes raw (jsonItems ["A"; "B"]) then inl {| Items := batchAB |}
  else if sameBytes raw (jsonItems ["C"]) then inl {| Items := [recipeC] |}
  else if sameBytes raw (jsonItems []) then inl {| Items := [] |}
  else inr (json_error "json: cannot unmarshal into Go value of type recipe.data").

Definition payloadOf (raws : list RawMessage) : payload :=
  {| Props := {| PageProps := {| SSRPayload := {| DehydratedState :=
       {| Queries := map (fun raw => {| State := {| Data := raw |} |}) raws |} |} |} |} |}.

(** The page is [pageDoc] and its payload decodes to [p]. *)
Definition fixtureEnv (p : payload) : Env :=
  {| http_Get := fun _ => inl pageDoc;
     json_Unmarshal_payload := fun _ => inl p;
     json_Unmarshal_data := fixture_Unmarshal_data |}.

(** The same, with a decoder that accepts every raw message. *)
Definition lenientEnv (p : payload) : Env :=
  {| http_Get := fun _ => inl pageDoc;
     json_Unmarshal_payload := fun _ => inl p;
     json_Unmarshal_data := fun raw =>
       match fixture_Unmarshal_data raw with
       | inl d => inl d
       | inr _ => inl {| Items := [recipeA] |}
       end |}.

(** Object, array, null and string entries, then a second object. *)
Definition payloadMixed : payload :=
  payloadOf [jsonItems ["A"; "B"]; B "[]"; B "null"; jsonString "x"; jsonItems ["C"]].

(** An object entry that does not decode, between entries that do. *)
Definition payloadBad : payload :=
  payloadOf [jsonItems ["A"; "B"]; B "[]"; rawBad; jsonItems ["C"]].

(** An entry without data, after an object entry. *)
Definition payloadEmpty : payload :=
  payloadOf [jsonItems ["A"; "B"]; []; jsonItems ["C"]].

(** ** More fixtures *)

(** A page whose sentinel script is empty: no text follows its start tag. *)
Definition emptySentinelTail : list Token :=
  [EndTagToken (B "script"); EndTagToken (B "head"); EndTagToken (B "html")].

(** The page is [plainDoc], which has no sentinel script. *)
Definition plainEnv : Env :=
  {| http_Get := fun _ => inl plainDoc;
     json_Unmarshal_payload := fun _ => inl (payloadOf []);
     json_Unmarshal_data := fixture_Unmarshal_data |}.

(** Array, null and string entries only. *)
Definition payloadNoObject : payload :=
  payloadOf [B "[]"; B "null"; jsonString "x"].

(** Ingredients in which the identifier [i1] occurs twice. *)
Definition pantry : list Ingredient.t :=
  [Ingredient.make "i0" "Salt"; Ingredient.make "i1" "Egg";
   Ingredient.make "i2" "Milk"; Ingredient.make "i1" "Duck egg"].

(** A recipe without ingredients whose only yield has no entries. *)
Definition recipeBare : Recipe.t := Recipe.make "D" [] [yieldOf []].

(** ** Collections

    [Collections] stands in the later revision of the package: it fetches
    the sitemap of the recipe collections and returns the address of each
    of its entries. *)

Module xml.
Record Name : Type := { Space : string; Local : string }.
End xml.

Module URL.
Record t : Type := {
  XMLName : xml.Name;
  LOC : string;
  LastMod : string;
  ChangeFreq : string;
  Priority : float64
}.
End URL.

Module URLSet.
Record t : Type := {
  XMLName : xml.Name;
  URLs : list URL.t
}.
End URLSet.

(** The library calls of [Collections]: [http.Get] with the body of the
    response as [io.ReadAll] reads it, and [xml.Unmarshal] into a
    [URLSet]. *)
Class SitemapEnv : Type := {
  Body : Type;
  http_Get_body : string -> Body + error;
  io_ReadAll : Body -> bytes * option error;
  xml_Unmarshal : bytes -> URLSet.t + error
}.

(** The loop [for _, url := range urlset.URLs], with the slice
    [collection] built so far. *)
Fixpoint rangeURLs (collection : list string) (urls : list URL.t) : list string :=
  match urls with
  | [] => collection
  | url :: rest => rangeURLs (collection ++ [URL.LOC url]) rest
  end.

Definition Collections `{SitemapEnv} : list string * option error :=
  match http_Get_body "https://www.hellofresh.com/sitemap_recipe_collections.xml" with
  | inr err => ([], Some err)
  | inl body =>
      match io_ReadAll body with
      | (_, Some err) => ([], Some err)
      | (b, None) =>
          match xml_Unmarshal b with
          | inr err => ([], Some err)
          | inl urlset => (rangeURLs [] (URLSet.URLs urlset), None)
          end
      end
  end.

(** ** The command

    [main] of the last revision of the command, with the flags as
    [flag.Parse] leaves them. A run is the sequence of its calls to the
    operating system: the file it creates, what it hands to [output.Write],
    the flush, and the [log.Fatal] or panic that ends it early. *)

Record Flags : Type := {
  listFlag : bool;
  oFlag : string;
  recipePage : string;
  yieldIDsToNames : bool
}.

Definition recipeHomePage : string := "https://www.hellofresh.com/recipes".

(** [ScrapeRecipes(page)] of the later revision of the package: the
    earlier one with the address as an argument. *)
Definition ScrapeRecipesAt `{Env} (page : string) : outcome (Recipes * option error) :=
  match http_Get page with
  | inr err => Returned ([], Some err)
  | inl body =>
      match parseRecipeProps body with
      | (_, Some err) => Returned ([], Some err)
      | (b, None) =>
          match json_Unmarshal_payload b with
          | inr err => Returned ([], Some err)
          | inl p =>
              scrapeQueries [] (Queries (DehydratedState (SSRPayload (PageProps (Props p)))))
          end
      end
  end.

(** [err.Error()]. *)
Definition Error (err : error) : string :=
  match err with
  | stream_error io_EOF => "EOF"
  | stream_error (io_failure msg) => msg
  | http_error msg => msg
  | json_error msg => msg
  | errors_New msg => msg
  end.

Inductive Event : Type :=
| os_Create (name : string)        (* os.Create(name) *)
| output_Write (data : bytes)      (* output.Write(data) *)
| output_Flush                     (* output.Flush() *)
| log_Fatal (msg : string)         (* log.Fatal or log.Fatalf, then exit *)
| go_panic (msg : string).         (* an uncaught panic *)

(** A run so far: the calls made, and the value in hand while the run has
    not ended. *)
Record Run (A : Type) : Type := { trace : list Event; value : option A }.
Arguments trace {A} _.
Arguments value {A} _.

#[export] Instance Run_ret : MRet Run :=
  fun A a => {| trace := []; value := Some a |}.

#[export] Instance Run_bind : MBind Run :=
  fun A B k m =>
    match value m with
    | None => {| trace := trace m; value := None |}
    | Some a => {| trace := trace m ++ trace (k a); value := value (k a) |}
    end.

Definition call (e : Event) : Run unit := {| trace := [e]; value := Some tt |}.

Definition fatal {A : Type} (msg : string) : Run A :=
  {| trace := [log_Fatal msg]; value := None |}.

Definition panics {A : Type} (msg : string) : Run A :=
  {| trace := [go_panic msg]; value := None |}.

(** [if err != nil { log.Fatal(err) }]. *)
Definition check (err : option error) : Run unit :=
  match err with
  | Some e => fatal (Error e)
  | None => mret tt
  end.

(** What [main] asks of the system and of the libraries besides the calls
    of package [recipe]: the results of [os.Create], of [output.Write] and
    [output.Flush], [json.MarshalIndent] of a batch, and [recipe.IsValidPage],
    a function of the package whose source is not at hand. *)
Class MainEnv : Type := {
  os_Create_result : string -> option error;
  output_Write_result : bytes -> option error;
  output_Flush_result : option error;
  json_MarshalIndent : Recipes -> bytes + error;
  IsValidPage : string -> bool * option error
}.

Definition newline : string := String (Ascii.ascii_of_nat 10) EmptyString.

(** The loop [for _, c := range cs] of the listing, with [data] built so
    far. *)
Fixpoint rangeCollections (data : bytes) (cs : list string) : bytes :=
  match cs with
  | [] => data
  | c :: rest => rangeCollections (data ++ B (c +:+ newline)) rest
  end.

(** The branch of [main] that lists the collections. *)
Definition listData `{SitemapEnv} : Run bytes :=
  match Collections with
  | (_, Some err) => fatal (Error err)
  | (cs, None) => mret (rangeCollections [] cs)
  end.

(** The branch of [main] that scrapes a page. *)
Definition scrapeData `{Env} `{MainEnv} (f : Flags) : Run bytes :=
  page ← (if String.eqb (recipePage f) "" then mret recipeHomePage
          else if negb (String.eqb (recipePage f) recipeHomePage) then
            match IsValidPage (recipePage f) with
            | (_, Some err) => fatal (Error err)
            | (false, None) => fatal ("invalid recipe page: " +:+ recipePage f)
            | (true, None) => mret (recipePage f)
            end
          else mret (recipePage f));
  rs ← match ScrapeRecipesAt page with
       | Panicked msg => panics msg
       | Returned (_, Some err) => fatal (Error err)
       | Returned (rs, None) => mret rs
       end;
  rs ← (if yieldIDsToNames f then
          match YieldIDsToNames rs with
          | (_, Some err) => fatal (Error err)
          | (rs', None) => mret rs'
          end
        else mret rs);
  match json_MarshalIndent rs with
  | inr err => fatal (Error err)
  | inl data => mret data
  end.

Definition main `{Env} `{SitemapEnv} `{MainEnv} (f : Flags) : Run unit :=
  (if listFlag f && negb (String.eqb (recipePage f) "")
   then fatal "cannot use -p with -l" else mret tt);;
  (if listFlag f && yieldIDsToNames f
   then fatal "cannot use -y with -l" else mret tt);;
  (if negb (String.eqb (oFlag f) "")
   then call (os_Create (oFlag f));; check (os_Create_result (oFlag f))
   else mret tt);;
  data ← (if listFlag f then listData else scrapeData f);
  call (output_Write data);;
  match output_Write_result data with
  | Some err => fatal ("writing recipe output: " +:+ Error err)
  | None => mret tt
  end;;
  call output_Flush;;
  match output_Flush_result with
  | Some err => fatal ("flushing recipe output: " +:+ Error err)
  | None => mret tt
  end.

(** ** Fixtures of the command *)

Definition urlOf (loc : string) : URL.t :=
  {| URL.XMLName := {| xml.Space := ""; xml.Local := "url" |};
     URL.LOC := loc; URL.LastMod := "2023-01-01"; URL.ChangeFreq := "daily";
     URL.Priority := S754_finite false 1 (-1) |}.

Definition sitemap : URLSet.t :=
  {| URLSet.XMLName := {| xml.Space := ""; xml.Local := "urlset" |};
     URLSet.URLs := [urlOf "https://www.hellofresh.com/recipes/quick";
                     urlOf "https://www.hellofresh.com/recipes/vegan"] |}.

(** The sitemap is read whole and decodes to [sitemap]. *)
Definition fixtureSitemap : SitemapEnv :=
  {| Body := bytes;
     http_Get_body := fun _ => inl (B "<urlset/>");
     io_ReadAll := fun b => (b, None);
     xml_Unmarshal := fun _ => inl sitemap |}.

(** A stand-in for [json.MarshalIndent]: the identifiers of the yield
    entries of the batch, each followed by a semicolon. *)
Definition marshalIDs (rs : Recipes) : bytes :=
  concat (map (fun r =>
    concat (map (fun y =>
      concat (map (fun x => B (IngredientYield.ID x +:+ ";")) (Yield.Ingredients y)))
      (Recipe.Yields r))) rs).

(** Every call succeeds; the quick recipes are the only valid page. *)
Definition fixtureMain : MainEnv :=
  {| os_Create_result := fun _ => None;
     output_Write_result := fun _ => None;
     output_Flush_result := None;
     json_MarshalIndent := fun rs => inl (marshalIDs rs);
     IsValidPage := fun page =>
       (String.eqb page "https://www.hellofresh.com/recipes/quick", None) |}.

(** [-o out.json -y]. *)
Definition flagsResolve : Flags :=
  {| listFlag := false; oFlag := "out.json"; recipePage := "";
     yieldIDsToNames := true |}.

(** [-l]. *)
Definition flagsList : Flags :=
  {| listFlag := true; oFlag := ""; recipePage := ""; yieldIDsToNames := false |}.

(** [-o out.json -p https://example.com], an address that is not valid. *)
Definition flagsInvalid : Flags :=
  {| listFlag := false; oFlag := "out.json"; recipePage := "https://example.com";
     yieldIDsToNames := false |}.

(** A payload whose only entry holds the recipes [A] and [B]. *)
Definition payloadAB : payload := payloadOf [jsonItems ["A"; "B"]].

(** The address [main] scrapes. *)
Definition pageOf (f : Flags) : string :=
  if String.eqb (recipePage f) "" then recipeHomePage else recipePage f.

(** The flags [main] refuses: [-l] with [-p] or with [-y]. *)
Definition conflicting (f : Flags) : bool :=
  listFlag f && (negb (String.eqb (recipePage f) "") || yieldIDsToNames f).

(** The call that opens the output file, when [-o] is given. *)
Definition creates (f : Flags) : list Event :=
  if String.eqb (oFlag f) "" then [] else [os_Create (oFlag f)].

(** An entry without data, then an object entry that does not decode. *)
Definition payloadEmptyThenBad : payload := payloadOf [[]; rawBad].

(** An object entry that does not decode, then an entry without data. *)
Definition payloadBadThenEmpty : payload :=
  payloadOf [jsonItems ["A"; "B"]; rawBad; []].

(** A recipe whose entry names [i9], which only [recipeY] has. *)
Definition recipeX : Recipe.t :=
  Recipe.make "X" [Ingredient.make "i1" "Egg"] [yieldOf ["i9"]].

Definition recipeY : Recipe.t :=
  Recipe.make "Y" [Ingredient.make "i9" "Salt"] [yieldOf ["i9"]].

(** * Properties *)

(** ** The scanner *)

Section Scanner.

Lemma string_of_bytes_eq (k : bytes) (s : string) :
  String.eqb (string_of_list_byte k) s = true <-> k = B s.
Proof.
  rewrite String.eqb_eq. unfold B. split; intros E.
  - rewrite <- E. symmetry. apply list_byte_of_string_of_list_byte.
  - rewrite E. apply string_of_list_byte_of_string.
Qed.

(** Once set, [isRecipeProps] is never cleared. *)
Lemma startTag_armed name attr : startTag true name attr = true.
Proof.
  unfold startTag, TagName, TagAttr.
  repeat (case_match; simplify_eq; try reflexivity).
Qed.

(** What the scanner asks of a start tag to arm: the exact shape of the
    tag, its first two attributes in this order. *)
Lemma arms_spec (t : Token) :
  arms t = true <->
  exists more, t = scriptTag
    ((B "id", B "__NEXT_DATA__") :: (B "type", B "application/json") :: more).
Proof.
  split.
  - destruct t as [ | name attr | | | | ]; simpl; try discriminate.
    unfold startTag, TagName, TagAttr.
    destruct (String.eqb (string_of_list_byte name) "script") eqn:En; simpl; [ | discriminate].
    destruct attr as [ | [k v] attr]; simpl; [discriminate | ].
    destruct (String.eqb (string_of_list_byte k) "id") eqn:Ek; simpl; [ | discriminate].
    destruct (String.eqb (string_of_list_byte v) "__NEXT_DATA__") eqn:Ev; simpl; [ | discriminate].
    destruct attr as [ | [k' v'] more]; simpl; [discriminate | ].
    destruct (String.eqb (string_of_list_byte k') "type") eqn:Ek'; simpl; [ | discriminate].
    destruct (String.eqb (string_of_list_byte v') "application/json") eqn:Ev'; simpl; [ | discriminate].
    intros _. exists more.
    apply string_of_bytes_eq in En, Ek, Ev, Ek', Ev'. by subst.
  - intros [more ->]. destruct more; reflexivity.
Qed.

Lemma arms_isSentinel (t : Token) : arms t = true -> isSentinel t.
Proof.
  intros [more ->]%arms_spec. simpl. split; [reflexivity | ].
  split; [left; reflexivity | right; left; reflexivity].
Qed.

(** A failing scan returns no bytes and the error of the stream. *)
Lemma parseLoop_failure e b toks err :
  snd (parseLoop e b toks) = Some err ->
  parseLoop e b toks = ([], Some (stream_error e)).
Proof.
  revert b. induction toks as [ | t toks IH]; intros b; simpl; [reflexivity | ].
  destruct t; try apply IH. destruct b; [discriminate | apply IH].
Qed.

(** Unarmed, the scanner passes over every token that does not arm it,
    text included. *)
Lemma parseLoop_skip e pre rest :
  Forall (fun t => arms t = false) pre ->
  parseLoop e false (pre ++ rest) = parseLoop e false rest.
Proof.
  induction 1 as [ | t pre Ht _ IH]; simpl; [reflexivity | ].
  destruct t; try exact IH. simpl in Ht. rewrite Ht. exact IH.
Qed.

(** Armed, the scanner returns the next text token, whatever follows. *)
Lemma parseLoop_armed e mid text post :
  Forall (fun t => isText t = false) mid ->
  parseLoop e true (mid ++ TextToken text :: post) = (text, None).
Proof.
  induction 1 as [ | t mid Ht _ IH]; simpl; [reflexivity | ].
  destruct t; try exact IH; [discriminate | ].
  rewrite startTag_armed. exact IH.
Qed.

Lemma parseLoop_armed_inv e toks text :
  parseLoop e true toks = (text, None) ->
  exists mid post, toks = mid ++ TextToken text :: post
    /\ Forall (fun t => isText t = false) mid.
Proof.
  induction toks as [ | t toks IH]; simpl; [discriminate | ].
  destruct t as [text' | name attr | name | name attr | c | d];
    try (intros (mid & post & -> & Hmid)%IH;
         eexists (_ :: mid), post; split; [reflexivity | by constructor]).
  - intros [= ->]. by exists [], toks.
  - rewrite startTag_armed.
    intros (mid & post & -> & Hmid)%IH.
    eexists (_ :: mid), post; split; [reflexivity | by constructor].
Qed.

Lemma parseLoop_unarmed_inv e toks text :
  parseLoop e false toks = (text, None) ->
  exists pre tag mid post, toks = pre ++ tag :: mid ++ TextToken text :: post
    /\ Forall (fun t => arms t = false) pre /\ arms tag = true
    /\ Forall (fun t => isText t = false) mid.
Proof.
  induction toks as [ | t toks IH]; simpl; [discriminate | ].
  destruct t as [text' | name attr | name | name attr | c | d];
    try (intros (pre & tag & mid & post & -> & Hpre & Htag & Hmid)%IH;
         eexists (_ :: pre), tag, mid, post;
         split; [reflexivity | split; [by constructor | by split]]).
  destruct (startTag false name attr) eqn:Ea.
  - intros (mid & post & -> & Hmid)%parseLoop_armed_inv.
    exists [], (StartTagToken name attr), mid, post. by repeat split.
  - intros (pre & tag & mid & post & -> & Hpre & Htag & Hmid)%IH.
    eexists (_ :: pre), tag, mid, post.
    split; [reflexivity | split; [by constructor | by split]].
Qed.

Lemma parseLoop_unarmed e toks :
  Forall (fun t => arms t = false) toks ->
  parseLoop e false toks = ([], Some (stream_error e)).
Proof.
  intros H. rewrite <- (app_nil_r toks). by rewrite parseLoop_skip.
Qed.

(** On a document without the sentinel script, the scanner returns no bytes
    and the error that ended the stream: [io.EOF] for a complete document. *)
Lemma parseRecipeProps_without_sentinel (r : Document) :
  (forall t, In t (Tokens r) -> ~ isSentinel t) ->
  parseRecipeProps r = ([], Some (stream_error (Err r))).
Proof.
  intros H. apply parseLoop_unarmed, List.Forall_forall. intros t Ht.
  destruct (arms t) eqn:Ea; [ | reflexivity].
  destruct (H t Ht). by apply arms_isSentinel.
Qed.

(** The error of the unreachable last statement is never returned. *)
Lemma parseRecipeProps_never_errNotFound (r : Document) :
  snd (parseRecipeProps r) <> Some errNotFound.
Proof.
  intros H. pose proof (parseLoop_failure _ _ _ _ H) as E.
  unfold parseRecipeProps in H. rewrite E in H. discriminate.
Qed.

(** C1 (the code departs from the claim). The claim: a document without the
    sentinel script fails with the error "recipe props data not found",
    which can be told apart from an error of the stream. The code: no
    document at all yields that error, and the sentinel-free document
    [plainDoc] yields no bytes and [io.EOF], the error of the stream. *)
Theorem C1_not_found_is_unreachable :
  (forall r : Document, snd (parseRecipeProps r) <> Some errNotFound)
  /\ parseRecipeProps plainDoc = ([], Some (stream_error io_EOF)).
Proof.
  split; [exact parseRecipeProps_never_errNotFound | reflexivity].
Qed.

(** C2, as stated, fails: the script of [swappedDoc] carries both sentinel
    attributes, [type] before [id], and its text is not returned. *)
Lemma C2_counterexample :
  isSentinel swappedTag
  /\ Tokens swappedDoc
     = [StartTagToken (B "html") []; swappedTag; TextToken (B "{}");
        EndTagToken (B "script"); EndTagToken (B "html")]
  /\ parseRecipeProps swappedDoc = ([], Some (stream_error io_EOF))
  /\ parseRecipeProps swappedDoc <> (B "{}", None).
Proof.
  split; [ | split; [reflexivity | split; [reflexivity | discriminate]]].
  simpl. split; [reflexivity | ]. split; [right; left | left]; reflexivity.
Qed.

(** C2, amended. When the first start tag that is a [script] with first
    attribute [id="__NEXT_DATA__"] and second attribute
    [type="application/json"] is followed at once by a text token, the
    scanner returns exactly that text, whatever tokens that do not arm it
    (other scripts included) stand before and whatever stands after. *)
Theorem C2_sentinel_text (e : StreamError) (pre post : list Token)
  (more : list Attribute) (text : bytes) :
  Forall (fun t => arms t = false) pre ->
  parseRecipeProps
    {| Tokens := pre
         ++ scriptTag ((B "id", B "__NEXT_DATA__")
                       :: (B "type", B "application/json") :: more)
         :: TextToken text :: post;
       Err := e |}
  = (text, None).
Proof.
  intros Hpre. unfold parseRecipeProps. simpl Tokens.
  rewrite parseLoop_skip by done.
  assert (Harm : arms (scriptTag ((B "id", B "__NEXT_DATA__")
                 :: (B "type", B "application/json") :: more)) = true)
    by (apply arms_spec; by exists more).
  unfold scriptTag in *. cbn [arms] in Harm. cbn [parseLoop]. by rewrite Harm.
Qed.

Lemma C2_sentinel_text_witness : parseRecipeProps pageDoc = (pageJSON, None).
Proof.
  apply (C2_sentinel_text io_EOF pagePrefix pageSuffix [] pageJSON).
  repeat constructor.
Defined.

(** C8. The scanner returns [text] exactly when the document reads: tokens
    that do not arm it (their text is passed over), a start tag that arms
    it, tokens that are not text, then the text token [text]; what follows
    that token is not looked at. *)
Theorem C8_next_text_token (r : Document) (text : bytes) :
  parseRecipeProps r = (text, None) <->
  exists pre tag mid post,
    Tokens r = pre ++ tag :: mid ++ TextToken text :: post
    /\ Forall (fun t => arms t = false) pre
    /\ arms tag = true
    /\ Forall (fun t => isText t = false) mid.
Proof.
  unfold parseRecipeProps. split.
  - apply parseLoop_unarmed_inv.
  - intros (pre & tag & mid & post & -> & Hpre & Htag & Hmid).
    rewrite parseLoop_skip by done.
    destruct tag; try discriminate. simpl in *. rewrite Htag.
    by apply parseLoop_armed.
Qed.

End Scanner.

(** ** The navigator *)

Section NavigatorLoop.
Context `{E : Env}.

Lemma ScrapeRecipes_envelope (p : payload) :
  envelope p -> ScrapeRecipes = scrapeQueries [] (queriesOf p).
Proof.
  intros (body & b & Hget & Hparse & Hjson).
  unfold ScrapeRecipes. fold recipesURL. by rewrite Hget, Hparse, Hjson.
Qed.

Lemma index0_nonEmpty (q : Query_t) :
  nonEmpty q -> exists c, index0 (Data (State q)) = Some c.
Proof.
  unfold nonEmpty, index0. destruct (Data (State q)) as [ | c d]; [done | by exists c].
Qed.

Lemma index0_empty (d : RawMessage) : d = [] <-> index0 d = None.
Proof. unfold index0. by destruct d. Qed.

Lemma scrapeQueries_skip (rs : Recipes) (q : Query_t) (rest : list Query_t) :
  nonEmpty q -> isObject q = false ->
  scrapeQueries rs (q :: rest) = scrapeQueries rs rest.
Proof.
  unfold nonEmpty, isObject. simpl. unfold index0.
  destruct (Data (State q)) as [ | c d]; [done | ]. simpl. by intros _ ->.
Qed.

Lemma scrapeQueries_decode (rs : Recipes) (q : Query_t) (rest : list Query_t) :
  isObject q = true ->
  scrapeQueries rs (q :: rest) =
  match json_Unmarshal_data (Data (State q)) with
  | inr err => Returned ([], Some err)
  | inl d => scrapeQueries (rs ++ Items d) rest
  end.
Proof.
  unfold isObject. simpl. unfold index0.
  destruct (Data (State q)) as [ | c d]; [done | ]. simpl. intros ->.
  destruct (json_Unmarshal_data (c :: d)) as [[items] | err]; [ | done]. simpl.
  destruct items; simpl; [by rewrite app_nil_r | done].
Qed.

Lemma scrapeQueries_empty (rs : Recipes) (q : Query_t) (rest : list Query_t) :
  Data (State q) = [] -> scrapeQueries rs (q :: rest) = Panicked indexPanic.
Proof. simpl. by intros ->. Qed.

Lemma scrapeQueries_app (pre post : list Query_t) (rs : Recipes) :
  Forall nonEmpty pre -> Forall decodes pre ->
  scrapeQueries rs (pre ++ post) =
  scrapeQueries (rs ++ concat (map itemsOf (List.filter isObject pre))) post.
Proof.
  intros Hne. revert rs. induction Hne as [ | q pre Hq _ IH]; intros rs Hdec.
  - simpl. by rewrite app_nil_r.
  - apply Forall_cons in Hdec as [Hd Hdec]. rewrite <- app_comm_cons.
    simpl List.filter. destruct (isObject q) eqn:Eo.
    + rewrite scrapeQueries_decode by done. unfold itemsOf at 1. simpl.
      destruct (Hd Eo) as [d ->]. rewrite IH by done.
      by rewrite app_assoc.
    + rewrite scrapeQueries_skip by done. by apply IH.
Qed.

Lemma scrapeQueries_abort (qs : list Query_t) (rs : Recipes) :
  Exists undecodable qs ->
  (scrapeQueries rs qs = Panicked indexPanic /\ Exists (fun q => Data (State q) = []) qs)
  \/ exists q e, In q qs /\ isObject q = true
       /\ json_Unmarshal_data (Data (State q)) = inr e
       /\ scrapeQueries rs qs = Returned ([], Some e).
Proof.
  revert rs. induction qs as [ | q qs IH]; intros rs Hex; [by apply Exists_nil in Hex | ].
  assert (Hstep : forall rs', Exists undecodable qs ->
    (scrapeQueries rs' qs = Panicked indexPanic /\ Exists (fun q => Data (State q) = []) (q :: qs))
    \/ exists q0 e, In q0 (q :: qs) /\ isObject q0 = true
       /\ json_Unmarshal_data (Data (State q0)) = inr e
       /\ scrapeQueries rs' qs = Returned ([], Some e)).
  { intros rs' H. destruct (IH rs' H) as [[Hp He] | (q0 & e & Hin & Ho & Hd & Hr)].
    - left. split; [done | by apply Exists_cons_tl].
    - right. exists q0, e. repeat split; try done. by right. }
  destruct (decide (Data (State q) = [])) as [Ed | Hq].
  - left. split; [by apply scrapeQueries_empty | by apply Exists_cons_hd].
  - destruct (isObject q) eqn:Eo.
    + rewrite scrapeQueries_decode by done.
      destruct (json_Unmarshal_data (Data (State q))) as [d0 | e] eqn:Ej.
      * apply Exists_cons in Hex as [[_ [e He]] | Hex]; [congruence | ].
        by apply Hstep.
      * right. exists q, e. repeat split; try done. by left.
    + rewrite scrapeQueries_skip by done.
      apply Exists_cons in Hex as [[Ho _] | Hex]; [congruence | ].
      by apply Hstep.
Qed.

Lemma scrapeQueries_indep (E' : Env) (qs : list Query_t) (rs : Recipes) :
  (forall q, In q qs -> isObject q = true ->
     @json_Unmarshal_data E' (Data (State q)) = @json_Unmarshal_data E (Data (State q))) ->
  @scrapeQueries E' rs qs = @scrapeQueries E rs qs.
Proof.
  revert rs. induction qs as [ | q qs IH]; intros rs H; [done | ].
  assert (Hrest : forall rs', @scrapeQueries E' rs' qs = @scrapeQueries E rs' qs).
  { intros rs'. apply IH. intros q0 Hin. apply H. by right. }
  simpl. unfold index0. destruct (Data (State q)) as [ | c d] eqn:Ed; [done | ]. simpl.
  destruct (Byte.eqb c "{"%byte) eqn:Ec; [ | apply Hrest].
  rewrite <- Ed, (H q); [ | by left | unfold isObject; by rewrite Ed ].
  destruct (json_Unmarshal_data (Data (State q))) as [d0 | e]; [ | done].
  destruct (0 <? length (Items d0))%nat; apply Hrest.
Qed.

End NavigatorLoop.

Section Navigator.
Context `{E : Env}.

Lemma scrapeQueries_returns (qs : list Query_t) (rs : Recipes) :
  Forall nonEmpty qs -> exists res, scrapeQueries rs qs = Returned res.
Proof.
  intros H. revert rs. induction H as [ | q qs Hq _ IH]; intros rs; [by eexists | ].
  destruct (isObject q) eqn:Eo.
  - rewrite scrapeQueries_decode by done.
    destruct (json_Unmarshal_data (Data (State q))); [apply IH | by eexists].
  - rewrite scrapeQueries_skip by done. apply IH.
Qed.

Lemma scrapeQueries_success_inv (qs : list Query_t) (rs rs' : Recipes) :
  scrapeQueries rs qs = Returned (rs', None) ->
  Forall nonEmpty qs /\ Forall decodes qs.
Proof.
  revert rs. induction qs as [ | q qs IH]; intros rs; [by split | ].
  destruct (decide (Data (State q) = [])) as [Ed | Hq].
  { by rewrite scrapeQueries_empty. }
  destruct (isObject q) eqn:Eo.
  - rewrite scrapeQueries_decode by done.
    destruct (json_Unmarshal_data (Data (State q))) as [d | e] eqn:Ej; [ | done].
    intros [Hne Hdec]%IH. split; constructor; try done. intros _. by exists d.
  - rewrite scrapeQueries_skip by done.
    intros [Hne Hdec]%IH. split; constructor; try done. unfold decodes. congruence.
Qed.

Lemma length_concat_items (qs : list Query_t) :
  length (concat (map itemsOf qs)) = list_sum (map (fun q => length (itemsOf q)) qs).
Proof.
  induction qs as [ | q qs IH]; [done | ].
  simpl. by rewrite length_app, IH.
Qed.

Lemma scrapeQueries_error_inv (qs : list Query_t) (rs0 rs : Recipes) (e : error) :
  scrapeQueries rs0 qs = Returned (rs, Some e) ->
  rs = []
  /\ exists pre q post,
       qs = pre ++ q :: post
       /\ Forall nonEmpty pre /\ Forall decodes pre
       /\ isObject q = true
       /\ json_Unmarshal_data (Data (State q)) = inr e.
Proof.
  revert rs0. induction qs as [ | q qs IH]; intros rs0; [done | ].
  assert (Hstep : forall rs1,
    nonEmpty q -> decodes q ->
    scrapeQueries rs1 qs = Returned (rs, Some e) ->
    rs = []
    /\ exists pre q0 post,
         q :: qs = pre ++ q0 :: post
         /\ Forall nonEmpty pre /\ Forall decodes pre
         /\ isObject q0 = true
         /\ json_Unmarshal_data (Data (State q0)) = inr e).
  { intros rs1 Hq Hd (-> & pre & q0 & post & -> & Hne & Hdec & Ho & He)%IH.
    split; [done | ]. exists (q :: pre), q0, post.
    split; [done | ]. repeat split; try done; constructor; assumption. }
  destruct (decide (Data (State q) = [])) as [Ed | Hq].
  { by rewrite scrapeQueries_empty. }
  destruct (isObject q) eqn:Eo.
  - rewrite scrapeQueries_decode by done.
    destruct (json_Unmarshal_data (Data (State q))) as [d | e0] eqn:Ej.
    + apply Hstep; [done | ]. intros _. by exists d.
    + intros [= <- <-]. split; [done | ]. exists [], q, qs.
      repeat split; try done; constructor.
  - rewrite scrapeQueries_skip by done.
    apply Hstep; [done | ]. unfold decodes. congruence.
Qed.

(** C3. Let [p] be the envelope. [ScrapeRecipes] returns recipes exactly
    when every entry has data and every entry whose data begins with ['{']
    decodes, and it then returns the concatenation, in the order of the
    queries, of the [Items] of the entries whose data begins with ['{'];
    its length is the sum of their lengths. The other entries are not
    decoded: a decoder that differs on them only gives the same result. *)
Theorem C3_first_byte_filter (p : payload) :
  envelope p ->
  let matching := List.filter isObject (queriesOf p) in
  (forall rs, ScrapeRecipes = Returned (rs, None) <->
     Forall nonEmpty (queriesOf p) /\ Forall decodes (queriesOf p)
     /\ rs = concat (map itemsOf matching))
  /\ length (concat (map itemsOf matching))
     = list_sum (map (fun q => length (itemsOf q)) matching)
  /\ (forall E' : Env,
        @envelope E' p ->
        (forall q, In q matching ->
           @json_Unmarshal_data E' (Data (State q)) = @json_Unmarshal_data E (Data (State q))) ->
        @ScrapeRecipes E' = @ScrapeRecipes E).
Proof.
  intros Henv matching. split; [ | split].
  - intros rs. rewrite (ScrapeRecipes_envelope p Henv). split.
    + intros Hr. destruct (scrapeQueries_success_inv _ _ _ Hr) as [Hne Hdec].
      split; [done | split; [done | ]].
      rewrite <- (app_nil_r (queriesOf p)), scrapeQueries_app in Hr by done.
      simpl in Hr. by injection Hr as <-.
    + intros (Hne & Hdec & ->).
      rewrite <- (app_nil_r (queriesOf p)) at 1. by rewrite scrapeQueries_app.
  - apply length_concat_items.
  - intros E' Henv' Hagree.
    rewrite (ScrapeRecipes_envelope p Henv), (@ScrapeRecipes_envelope E' p Henv').
    apply scrapeQueries_indep. intros q Hin Ho. apply Hagree.
    apply filter_In. by split.
Qed.

(** C7, as stated, fails: in [payloadEmptyThenBad] an entry whose data
    begins with ['{'] fails to decode, and [ScrapeRecipes] returns no
    error: it panics on the entry without data that stands before it. *)
Lemma C7_counterexample :
  @envelope (fixtureEnv payloadEmptyThenBad) payloadEmptyThenBad
  /\ Exists (@undecodable (fixtureEnv payloadEmptyThenBad))
       (queriesOf payloadEmptyThenBad)
  /\ @ScrapeRecipes (fixtureEnv payloadEmptyThenBad) = Panicked indexPanic
  /\ ~ (exists res, @ScrapeRecipes (fixtureEnv payloadEmptyThenBad) = Returned res).
Proof.
  split; [exists pageDoc, pageJSON; repeat split; reflexivity | ].
  split; [ | split; [reflexivity | by intros [res Hres]]].
  apply Exists_cons_tl, Exists_cons_hd.
  split; [reflexivity | eexists; reflexivity].
Qed.

(** C7, amended. Let [q] be the first entry that begins with ['{'] and
    fails to decode: the entries before it that begin with ['{'] decode.
    When the entries before [q] have data, [ScrapeRecipes] returns the
    decode error of [q] with a [nil] slice, whatever the entries after [q]
    hold; this is the only way it returns an error from the loop. And
    whenever some entry that begins with ['{'] fails to decode,
    [ScrapeRecipes] returns no recipes. *)
Theorem C7_decode_failure_aborts (p : payload) :
  envelope p ->
  (forall pre q post e,
     queriesOf p = pre ++ q :: post ->
     Forall nonEmpty pre -> Forall decodes pre ->
     isObject q = true -> json_Unmarshal_data (Data (State q)) = inr e ->
     ScrapeRecipes = Returned ([], Some e))
  /\ (forall rs e,
        ScrapeRecipes = Returned (rs, Some e) ->
        rs = []
        /\ exists pre q post,
             queriesOf p = pre ++ q :: post
             /\ Forall nonEmpty pre /\ Forall decodes pre
             /\ isObject q = true
             /\ json_Unmarshal_data (Data (State q)) = inr e)
  /\ (Exists undecodable (queriesOf p) ->
      forall rs, ScrapeRecipes <> Returned (rs, None)).
Proof.
  intros Henv. rewrite (ScrapeRecipes_envelope p Henv). split; [ | split].
  - intros pre q post e Hqs Hne Hdec Ho He.
    rewrite Hqs, scrapeQueries_app by done.
    by rewrite scrapeQueries_decode, He.
  - intros rs e. apply scrapeQueries_error_inv.
  - intros Hex rs Hr.
    destruct (scrapeQueries_abort (queriesOf p) [] Hex)
      as [[Hp _] | (q & e & _ & _ & _ & Hq)]; congruence.
Qed.

(** C9. [Data[0]] is read without a length check. When every entry has
    data every read is in bounds and [ScrapeRecipes] returns. On an entry
    without data the read is out of bounds, and [ScrapeRecipes] panics when
    the loop gets to it, that is when the entries before it have data and
    those that pass the filter decode. *)
Theorem C9_index_without_guard (p : payload) :
  envelope p ->
  (Forall nonEmpty (queriesOf p) ->
     Forall (fun q => exists c, index0 (Data (State q)) = Some c) (queriesOf p)
     /\ exists res, ScrapeRecipes = Returned res)
  /\ (forall pre q post,
        queriesOf p = pre ++ q :: post -> Data (State q) = [] ->
        index0 (Data (State q)) = None
        /\ (Forall nonEmpty pre -> Forall decodes pre ->
            ScrapeRecipes = Panicked indexPanic)).
Proof.
  intros Henv. rewrite (ScrapeRecipes_envelope p Henv). split.
  - intros Hne. split; [ | by apply scrapeQueries_returns].
    eapply Forall_impl; [exact Hne | ]. apply index0_nonEmpty.
  - intros pre q post -> Hq. split; [by apply index0_empty | ].
    intros Hne Hdec. rewrite scrapeQueries_app by done.
    by apply scrapeQueries_empty.
Qed.

End Navigator.

Lemma fixture_envelope (p : payload) : @envelope (fixtureEnv p) p.
Proof. exists pageDoc, pageJSON. repeat split; reflexivity. Qed.

Lemma lenient_envelope (p : payload) : @envelope (lenientEnv p) p.
Proof. exists pageDoc, pageJSON. repeat split; reflexivity. Qed.

Lemma C3_first_byte_filter_witness :
  @ScrapeRecipes (fixtureEnv payloadMixed) = Returned ([recipeA; recipeB; recipeC], None)
  /\ @ScrapeRecipes (lenientEnv payloadMixed) = @ScrapeRecipes (fixtureEnv payloadMixed).
Proof.
  destruct (@C3_first_byte_filter (fixtureEnv payloadMixed) payloadMixed
              (fixture_envelope payloadMixed)) as (Hiff & _ & Hindep).
  split.
  - apply Hiff. split; [ | split; [ | reflexivity]].
    + repeat constructor; discriminate.
    + repeat constructor; intros Ho; try discriminate Ho; eexists; reflexivity.
  - apply Hindep; [apply lenient_envelope | ].
    intros q [<- | [<- | []]]; reflexivity.
Defined.

Lemma C7_decode_failure_aborts_witness :
  @ScrapeRecipes (fixtureEnv payloadBadThenEmpty)
  = Returned ([], Some (json_error
      "json: cannot unmarshal into Go value of type recipe.data")).
Proof.
  apply (proj1 (@C7_decode_failure_aborts (fixtureEnv payloadBadThenEmpty)
                  payloadBadThenEmpty (fixture_envelope payloadBadThenEmpty))
           [ {| State := {| Data := jsonItems ["A"; "B"] |} |} ]
           {| State := {| Data := rawBad |} |}
           [ {| State := {| Data := [] |} |} ]).
  - reflexivity.
  - repeat constructor; discriminate.
  - repeat constructor. intros _. eexists; reflexivity.
  - reflexivity.
  - reflexivity.
Defined.

Lemma C9_index_without_guard_witness :
  @ScrapeRecipes (fixtureEnv payloadEmpty) = Panicked indexPanic.
Proof.
  apply (proj2 (@C9_index_without_guard (fixtureEnv payloadEmpty) payloadEmpty
                  (fixture_envelope payloadEmpty))
           [ {| State := {| Data := jsonItems ["A"; "B"] |} |} ]
           {| State := {| Data := [] |} |}
           [ {| State := {| Data := jsonItems ["C"] |} |} ]
           eq_refl eq_refl).
  - repeat constructor; discriminate.
  - repeat constructor. intros _. eexists; reflexivity.
Defined.

(** ** The resolver *)

Section Resolver.

Lemma known_dec (ingreds : list Ingredient.t) (id : string) :
  {known ingreds id} + {~ known ingreds id}.
Proof. apply in_dec, String.string_dec. Defined.

Lemma firstName_known (ingreds : list Ingredient.t) (id : string) :
  known ingreds id <-> exists name, firstName id ingreds = Some name.
Proof.
  unfold known, firstName. induction ingreds as [ | g ingreds IH]; simpl.
  - split; [done | by intros [? ?]].
  - destruct (String.eqb id (Ingredient.ID g)) eqn:Eid.
    + apply String.eqb_eq in Eid. split; [by eexists | by left].
    + apply String.eqb_neq in Eid. rewrite <- IH. split; [intros [? | ?]; by subst | by right].
Qed.

Lemma ingredientName_firstName (ingreds : list Ingredient.t) (id : string) :
  ingredientName id ingreds =
  match firstName id ingreds with
  | Some name => (name, None)
  | None => ("", Some (errUnknownID id))
  end.
Proof.
  unfold firstName. induction ingreds as [ | g ingreds IH]; simpl; [done | ].
  by destruct (String.eqb id (Ingredient.ID g)).
Qed.

Lemma ingredientName_known (ingreds : list Ingredient.t) (x : IngredientYield.t) :
  knownEntry ingreds x ->
  exists name, ingredientName (IngredientYield.ID x) ingreds = (name, None)
    /\ resolveEntry ingreds x = IngredientYield.set_ID name x.
Proof.
  intros [name Hn]%firstName_known. exists name.
  rewrite ingredientName_firstName. unfold resolveEntry. by rewrite Hn.
Qed.

Lemma ingredientName_unknown (ingreds : list Ingredient.t) (x : IngredientYield.t) :
  ~ knownEntry ingreds x ->
  ingredientName (IngredientYield.ID x) ingreds
  = ("", Some (errUnknownID (IngredientYield.ID x))).
Proof.
  intros Hx. rewrite ingredientName_firstName.
  destruct (firstName _ _) as [name | ] eqn:Hn; [ | done].
  destruct Hx. apply firstName_known. by exists name.
Qed.

Lemma rangeIngredients_resolved ingreds (done_ todo : list IngredientYield.t) :
  Forall (knownEntry ingreds) todo ->
  rangeIngredients ingreds (length todo) (length done_) (done_ ++ todo)
  = (done_ ++ map (resolveEntry ingreds) todo, None).
Proof.
  intros H. revert done_. induction H as [ | x todo Hx _ IH]; intros done_; [done | ].
  simpl. rewrite list_lookup_middle by done.
  destruct (ingredientName_known _ _ Hx) as (name & -> & ->).
  rewrite alter_app_r_alt, Nat.sub_diag by done. simpl.
  specialize (IH (done_ ++ [IngredientYield.set_ID name x])).
  rewrite last_length, <- !app_assoc in IH. exact IH.
Qed.

Lemma rangeIngredients_stops ingreds (done_ pre : list IngredientYield.t) x post :
  Forall (knownEntry ingreds) pre -> ~ knownEntry ingreds x ->
  rangeIngredients ingreds (length (pre ++ x :: post)) (length done_)
    (done_ ++ pre ++ x :: post)
  = (done_ ++ map (resolveEntry ingreds) pre ++ x :: post,
     Some (errUnknownID (IngredientYield.ID x))).
Proof.
  intros H Hx. revert done_. induction H as [ | z pre Hz _ IH]; intros done_.
  - simpl. rewrite list_lookup_middle by done.
    by rewrite ingredientName_unknown.
  - simpl. rewrite list_lookup_middle by done.
    destruct (ingredientName_known _ _ Hz) as (name & -> & ->).
    rewrite alter_app_r_alt, Nat.sub_diag by done. simpl.
    specialize (IH (done_ ++ [IngredientYield.set_ID name z])).
    rewrite last_length, <- !app_assoc in IH. exact IH.
Qed.

Lemma first_failure {A : Type} (P : A -> Prop) (dec : forall x, {P x} + {~ P x})
  (l : list A) :
  Forall P l \/ exists pre x post, l = pre ++ x :: post /\ Forall P pre /\ ~ P x.
Proof.
  induction l as [ | a l IH]; [by left | ].
  destruct (dec a) as [Ha | Ha].
  - destruct IH as [IH | (pre & x & post & -> & Hpre & Hx)].
    + left. by constructor.
    + right. exists (a :: pre), x, post. repeat split; try done. by constructor.
  - right. by exists [], a, l.
Qed.

Lemma rangeIngredients_all ingreds (a : list IngredientYield.t) :
  Forall (knownEntry ingreds) a ->
  rangeIngredients ingreds (length a) 0 a = (map (resolveEntry ingreds) a, None).
Proof. exact (rangeIngredients_resolved ingreds [] a). Qed.

Lemma rangeIngredients_first ingreds (epre0 : list IngredientYield.t) x0 epost0 :
  Forall (knownEntry ingreds) epre0 -> ~ knownEntry ingreds x0 ->
  rangeIngredients ingreds (length (epre0 ++ x0 :: epost0)) 0 (epre0 ++ x0 :: epost0)
  = (map (resolveEntry ingreds) epre0 ++ x0 :: epost0,
     Some (errUnknownID (IngredientYield.ID x0))).
Proof. exact (rangeIngredients_stops ingreds [] epre0 x0 epost0). Qed.

Lemma rangeYields_resolved ingreds (ys : list Yield.t) :
  Forall (resolvableYield ingreds) ys ->
  rangeYields ingreds ys = (map (resolveYield ingreds) ys, None).
Proof.
  induction 1 as [ | y0 ys Hy _ IH]; [done | ]. simpl.
  rewrite (rangeIngredients_all ingreds _ Hy), IH. done.
Qed.

Lemma rangeYields_stops ingreds ypre0 y0 ypost0 epre0 x0 epost0 :
  Forall (resolvableYield ingreds) ypre0 ->
  Yield.Ingredients y0 = epre0 ++ x0 :: epost0 ->
  Forall (knownEntry ingreds) epre0 -> ~ knownEntry ingreds x0 ->
  rangeYields ingreds (ypre0 ++ y0 :: ypost0)
  = (map (resolveYield ingreds) ypre0
     ++ Yield.with_Ingredients (map (resolveEntry ingreds) epre0 ++ x0 :: epost0) y0
     :: ypost0,
     Some (errUnknownID (IngredientYield.ID x0))).
Proof.
  intros Hpre Hy He Hx. induction Hpre as [ | y1 ypre0 Hy1 _ IH]; simpl.
  - rewrite Hy. by rewrite (rangeIngredients_first ingreds epre0 x0 epost0 He Hx).
  - rewrite (rangeIngredients_all ingreds _ Hy1), IH. done.
Qed.

Lemma YieldIDsToNames_resolved (rs : Recipes) :
  Forall resolvableRecipe rs -> YieldIDsToNames rs = (map resolveRecipe rs, None).
Proof.
  induction 1 as [ | r0 rs Hr _ IH]; [done | ]. simpl.
  by rewrite (rangeYields_resolved _ _ Hr), IH.
Qed.

Lemma YieldIDsToNames_stops (rs : Recipes) (f : Position.t) :
  firstUnknown rs f ->
  YieldIDsToNames rs
  = (stoppedAt f, Some (errUnknownID (IngredientYield.ID (Position.x f)))).
Proof.
  destruct f as [pre0 r0 post0 ypre0 y0 ypost0 epre0 x0 epost0].
  unfold firstUnknown, stoppedAt. simpl.
  intros (-> & Hys & Hy & Hpre & Hypre & Hepre & Hx).
  induction Hpre as [ | r1 pre0 Hr1 _ IH]; simpl.
  - rewrite Hys. by rewrite (rangeYields_stops _ _ _ _ _ _ _ Hypre Hy Hepre Hx).
  - by rewrite (rangeYields_resolved _ _ Hr1), IH.
Qed.

Lemma knownEntry_dec ingreds x0 : {knownEntry ingreds x0} + {~ knownEntry ingreds x0}.
Proof. apply known_dec. Defined.

Lemma resolvableYield_dec ingreds y0 :
  {resolvableYield ingreds y0} + {~ resolvableYield ingreds y0}.
Proof. apply Forall_dec. intros x0. apply knownEntry_dec. Defined.

Lemma resolvableRecipe_dec r0 : {resolvableRecipe r0} + {~ resolvableRecipe r0}.
Proof. apply Forall_dec. intros y0. apply resolvableYield_dec. Defined.

Lemma resolvable_or_firstUnknown (rs : Recipes) :
  Forall resolvableRecipe rs \/ exists f : Position.t, firstUnknown rs f.
Proof.
  destruct (first_failure _ resolvableRecipe_dec rs)
    as [H | (pre0 & r0 & post0 & Hrs & Hpre & Hr)]; [by left | right].
  destruct (first_failure _ (resolvableYield_dec (Recipe.Ingredients r0)) (Recipe.Yields r0))
    as [H | (ypre0 & y0 & ypost0 & Hys & Hypre & Hy)]; [done | ].
  destruct (first_failure _ (knownEntry_dec (Recipe.Ingredients r0)) (Yield.Ingredients y0))
    as [H | (epre0 & x0 & epost0 & Hes & Hepre & Hx)]; [done | ].
  by exists (Position.Build_t pre0 r0 post0 ypre0 y0 ypost0 epre0 x0 epost0).
Qed.

Lemma unresolved_not_resolvable (rs : Recipes) :
  unresolved rs <-> ~ Forall resolvableRecipe rs.
Proof.
  unfold unresolved. split.
  - intros (r0 & Hr & (y0 & Hy & (x0 & Hx & Hk)%Exists_exists)%Exists_exists)%Exists_exists H.
    rewrite Forall_forall in H. specialize (H r0 Hr).
    unfold resolvableRecipe in H. rewrite Forall_forall in H. specialize (H y0 Hy).
    unfold resolvableYield in H. rewrite Forall_forall in H. by specialize (H x0 Hx).
  - intros H. destruct (resolvable_or_firstUnknown rs) as [? | [f Hf]]; [done | ].
    destruct f as [pre0 r0 post0 ypre0 y0 ypost0 epre0 x0 epost0].
    destruct Hf as (-> & Hys & Hy & _ & _ & _ & Hx). simpl in *.
    apply Exists_app. right. apply Exists_cons_hd.
    rewrite Hys. apply Exists_app. right. apply Exists_cons_hd.
    rewrite Hy. apply Exists_app. right. by apply Exists_cons_hd.
Qed.

(** The call returns [nil] exactly on the batches in which every yield entry
    names an ingredient of its own recipe. *)
Lemma YieldIDsToNames_success (rs : Recipes) :
  snd (YieldIDsToNames rs) = None <-> Forall resolvableRecipe rs.
Proof.
  split.
  - intros H. destruct (resolvable_or_firstUnknown rs) as [? | [f Hf]]; [done | ].
    rewrite (YieldIDsToNames_stops rs f Hf) in H. discriminate.
  - intros H. by rewrite (YieldIDsToNames_resolved rs H).
Qed.

Lemma resolveEntry_first (ingreds : list Ingredient.t) (x : IngredientYield.t) :
  knownEntry ingreds x ->
  exists g,
    List.find (fun g => String.eqb (IngredientYield.ID x) (Ingredient.ID g)) ingreds = Some g
    /\ resolveEntry ingreds x = IngredientYield.set_ID (Ingredient.Name g) x.
Proof.
  intros [name Hn]%firstName_known. unfold resolveEntry. rewrite Hn.
  unfold firstName in Hn.
  destruct (List.find _ ingreds) as [g | ]; [ | done].
  exists g. split; [done | ]. simpl in Hn. by injection Hn as <-.
Qed.

Lemma firstUnknown_not_resolvable (rs : Recipes) (f : Position.t) :
  firstUnknown rs f -> ~ Forall resolvableRecipe rs.
Proof.
  intros Hf Hr. apply YieldIDsToNames_success in Hr.
  rewrite (YieldIDsToNames_stops rs f Hf) in Hr. discriminate.
Qed.

Lemma resolveEntry_unknown (ingreds : list Ingredient.t) (x : IngredientYield.t) :
  ~ knownEntry ingreds x -> resolveEntry ingreds x = x.
Proof.
  intros Hx. unfold resolveEntry.
  destruct (firstName _ _) as [name | ] eqn:Hn; [ | done].
  destruct Hx. apply firstName_known. by exists name.
Qed.

(** C4. For every batch, what [YieldIDsToNames] does is fixed by each
    recipe's own ingredients. Either every yield entry names an ingredient
    of its own recipe, and the call leaves each recipe [r] as
    [resolveRecipe r], a function of [r] alone; or the call stops at the
    first entry that names no ingredient of its own recipe, whatever the
    other recipes hold, with the entries before it resolved in the same
    way. Resolving an entry against a list replaces its [ID] by the [Name]
    of the first ingredient of the list whose [ID] is the entry's, and
    leaves it alone when there is none. *)
Theorem C4_resolves_within_recipe (rs : Recipes) :
  ((Forall resolvableRecipe rs
    /\ YieldIDsToNames rs = (map resolveRecipe rs, None))
   \/ (exists f,
         firstUnknown rs f
         /\ YieldIDsToNames rs
            = (stoppedAt f,
               Some (errUnknownID (IngredientYield.ID (Position.x f))))))
  /\ (forall ingreds x,
        knownEntry ingreds x ->
        exists g,
          List.find (fun g => String.eqb (IngredientYield.ID x) (Ingredient.ID g))
            ingreds = Some g
          /\ resolveEntry ingreds x = IngredientYield.set_ID (Ingredient.Name g) x)
  /\ (forall ingreds x, ~ knownEntry ingreds x -> resolveEntry ingreds x = x).
Proof.
  split; [ | split; [apply resolveEntry_first | apply resolveEntry_unknown]].
  destruct (resolvable_or_firstUnknown rs) as [Hr | [f Hf]].
  - left. split; [done | by apply YieldIDsToNames_resolved].
  - right. exists f. split; [done | by apply YieldIDsToNames_stops].
Qed.

Lemma C4_resolves_within_recipe_witness :
  YieldIDsToNames batchAB
  = ([Recipe.make "A" [Ingredient.make "i1" "Egg"] [yieldOf ["Egg"]];
      Recipe.make "B" [Ingredient.make "i1" "Flour"] [yieldOf ["Flour"]]], None)
  /\ YieldIDsToNames [recipeX; recipeY]
     = ([recipeX; recipeY], Some (errors_New "id i9 not found in ingredients list")).
Proof.
  split.
  - destruct (proj1 (C4_resolves_within_recipe batchAB))
      as [[_ H] | (f & Hf & _)]; [exact H | ].
    destruct (firstUnknown_not_resolvable batchAB f Hf). repeat constructor.
  - reflexivity.
Defined.

(** C5. [YieldIDsToNames] returns an error exactly when some yield entry
    names no ingredient of its own recipe. There is then a first such entry
    in the order of the loops; the error carries its identifier, and the
    batch is left with every entry before it resolved and with it and every
    entry after it as they were. *)
Theorem C5_stops_at_first_unknown (rs : Recipes) :
  ((exists e, snd (YieldIDsToNames rs) = Some e) <-> unresolved rs)
  /\ (unresolved rs -> exists f, firstUnknown rs f)
  /\ (forall f, firstUnknown rs f ->
        YieldIDsToNames rs
        = (stoppedAt f,
           Some (errors_New ("id " +:+ IngredientYield.ID (Position.x f)
                             +:+ " not found in ingredients list")))).
Proof.
  split; [ | split].
  - rewrite unresolved_not_resolvable, <- YieldIDsToNames_success.
    destruct (snd (YieldIDsToNames rs)) as [e | ].
    + split; [done | by exists e].
    + split; [by intros [e ?] | done].
  - intros Hu%unresolved_not_resolvable.
    by destruct (resolvable_or_firstUnknown rs).
  - apply YieldIDsToNames_stops.
Qed.

Lemma C5_stops_at_first_unknown_witness :
  YieldIDsToNames batchACB
  = ([Recipe.make "A" [Ingredient.make "i1" "Egg"] [yieldOf ["Egg"]];
      Recipe.make "C" [Ingredient.make "i1" "Egg"] [yieldOf ["Egg"; "i2"; "i1"]];
      recipeB],
     Some (errors_New "id i2 not found in ingredients list")).
Proof.
  refine (eq_trans (proj2 (proj2 (C5_stops_at_first_unknown batchACB)) positionC _) _);
    [ | reflexivity].
  repeat split; try reflexivity; repeat constructor.
  intros [H | []]. discriminate H.
Defined.

Lemma map_alter_absorb {A B : Type} (f : A -> B) (g : A -> A) (i : nat) (l : list A) :
  (forall a, f (g a) = f a) -> map f (alter g i l) = map f l.
Proof.
  intros Hfg. revert i. induction l as [ | a l IH]; intros [ | i]; cbn; try done.
  - by rewrite Hfg.
  - f_equal. apply IH.
Qed.

Lemma rangeIngredients_frame ingreds (n i : nat) (a : list IngredientYield.t) :
  map (IngredientYield.set_ID "") (fst (rangeIngredients ingreds n i a))
  = map (IngredientYield.set_ID "") a.
Proof.
  revert i a. induction n as [ | n IH]; intros i a; simpl; [done | ].
  destruct (a !! i) as [ingred | ]; [ | done].
  destruct (ingredientName (IngredientYield.ID ingred) ingreds) as [name [err | ]]; [done | ].
  rewrite IH. by apply map_alter_absorb.
Qed.

Lemma rangeYields_frame ingreds (ys : list Yield.t) :
  map eraseYield (fst (rangeYields ingreds ys)) = map eraseYield ys.
Proof.
  induction ys as [ | y ys IH]; simpl; [done | ].
  pose proof (rangeIngredients_frame ingreds (length (Yield.Ingredients y)) 0
                (Yield.Ingredients y)) as Hf.
  destruct (rangeIngredients ingreds _ 0 _) as [a [err | ]]; simpl in *.
  - unfold eraseYield at 1. simpl. by rewrite Hf.
  - destruct (rangeYields ingreds ys) as [ys' err]. simpl in *.
    unfold eraseYield at 1. simpl. by rewrite Hf, IH.
Qed.

Lemma YieldIDsToNames_frame (rs : Recipes) :
  eraseIDs (fst (YieldIDsToNames rs)) = eraseIDs rs.
Proof.
  unfold eraseIDs. induction rs as [ | r rs IH]; simpl; [done | ].
  pose proof (rangeYields_frame (Recipe.Ingredients r) (Recipe.Yields r)) as Hf.
  destruct (rangeYields _ _) as [ys [err | ]]; simpl in *.
  - unfold eraseRecipe at 1. simpl. by rewrite Hf.
  - destruct (YieldIDsToNames rs) as [rs' err]. simpl in *.
    unfold eraseRecipe at 1. simpl. by rewrite Hf, IH.
Qed.

Lemma Ingredients_eraseIDs (rs : Recipes) :
  map Recipe.Ingredients (eraseIDs rs) = map Recipe.Ingredients rs.
Proof. unfold eraseIDs. rewrite map_map. by apply map_ext. Qed.

Lemma quantities_eraseIDs (rs : Recipes) : quantities (eraseIDs rs) = quantities rs.
Proof.
  unfold quantities, eraseIDs. rewrite map_map. apply map_ext. intros r. simpl.
  rewrite map_map. apply map_ext. intros y. simpl. by rewrite map_map.
Qed.

(** C6. Whether the call succeeds or fails, the batch it leaves differs from
    the batch it was given in [IngredientYield.ID] fields only: with those
    blanked the two batches are equal; in particular the ingredients of
    every recipe and the amount and unit of every yield entry are the
    same. *)
Theorem C6_only_yield_ids_change (rs : Recipes) :
  eraseIDs (fst (YieldIDsToNames rs)) = eraseIDs rs
  /\ map Recipe.Ingredients (fst (YieldIDsToNames rs)) = map Recipe.Ingredients rs
  /\ quantities (fst (YieldIDsToNames rs)) = quantities rs.
Proof.
  pose proof (YieldIDsToNames_frame rs) as H. split; [done | split].
  - by rewrite <- Ingredients_eraseIDs, H, Ingredients_eraseIDs.
  - by rewrite <- quantities_eraseIDs, H, quantities_eraseIDs.
Qed.

(** C10. A second call can fail after a first that succeeded: after
    resolving [recipeA] the entry holds the name [Egg], which is no
    identifier of the recipe. In general the batch a successful call leaves
    holds the resolved names, and a second call on it succeeds exactly when
    each of them is the [ID] of an ingredient of its own recipe. *)
Theorem C10_not_idempotent :
  (exists rs rs' e,
     YieldIDsToNames rs = (rs', None) /\ snd (YieldIDsToNames rs') = Some e)
  /\ (forall rs rs',
        YieldIDsToNames rs = (rs', None) ->
        rs' = map resolveRecipe rs
        /\ (snd (YieldIDsToNames rs') = None <-> Forall resolvableRecipe rs')).
Proof.
  split.
  - exists [recipeA], [Recipe.make "A" [Ingredient.make "i1" "Egg"] [yieldOf ["Egg"]]],
      (errUnknownID "Egg").
    split; reflexivity.
  - intros rs rs' H. split; [ | apply YieldIDsToNames_success].
    assert (Hr : Forall resolvableRecipe rs).
    { apply YieldIDsToNames_success. by rewrite H. }
    rewrite (YieldIDsToNames_resolved rs Hr) in H. by injection H as <-.
Qed.

Lemma C10_not_idempotent_witness :
  ~ Forall resolvableRecipe (map resolveRecipe batchAB).
Proof.
  intros H.
  apply (proj2 (proj2 C10_not_idempotent batchAB (map resolveRecipe batchAB) eq_refl)) in H.
  discriminate H.
Defined.

End Resolver.

(** * Further properties of the package *)

(** ** The scanner, continued *)

Section ScannerMore.

Lemma parseLoop_armed_fails e rest :
  Forall (fun t => isText t = false) rest ->
  parseLoop e true rest = ([], Some (stream_error e)).
Proof.
  induction 1 as [ | t rest Ht _ IH]; simpl; [reflexivity | ].
  destruct t; try exact IH; [discriminate | ].
  rewrite startTag_armed. exact IH.
Qed.

Lemma parseLoop_extend e e' b toks post text :
  parseLoop e b toks = (text, None) ->
  parseLoop e' b (toks ++ post) = (text, None).
Proof.
  revert b. induction toks as [ | t toks IH]; intros b; simpl; [discriminate | ].
  destruct t; try apply IH. destruct b; [done | apply IH].
Qed.

(** X1. A call returns either the text of a text token of the document,
    with a [nil] error, or no bytes with the error that ended the stream:
    never bytes and an error together, never an error of its own. *)
Theorem parseRecipeProps_text_or_stream_error (r : Document) :
  (exists text, parseRecipeProps r = (text, None) /\ In (TextToken text) (Tokens r))
  \/ parseRecipeProps r = ([], Some (stream_error (Err r))).
Proof.
  destruct (parseRecipeProps r) as [text [err | ]] eqn:E.
  - right. unfold parseRecipeProps in *. rewrite <- E.
    apply (parseLoop_failure _ _ _ err). by rewrite E.
  - left. exists text. split; [done | ].
    apply parseLoop_unarmed_inv in E as (pre & tag & mid & post & -> & _).
    apply in_or_app. right. right. apply in_or_app. right. by left.
Qed.

(** X2. After a start tag, [isRecipeProps] holds exactly when it held
    before or the tag is a [script] whose first attribute is
    [id="__NEXT_DATA__"] and whose second is [type="application/json"];
    attributes after the second do not matter, and no tag clears it. *)
Theorem startTag_sets_exactly (b : bool) (name : bytes) (attr : list Attribute) :
  startTag b name attr = true <->
  b = true
  \/ (name = B "script"
      /\ exists more, attr = (B "id", B "__NEXT_DATA__")
                             :: (B "type", B "application/json") :: more).
Proof.
  destruct b.
  - rewrite startTag_armed. split; [by left | done].
  - change (startTag false name attr) with (arms (StartTagToken name attr)).
    rewrite arms_spec. unfold scriptTag. split.
    + intros [more [= -> ->]]. right. split; [done | by exists more].
    + intros [? | [-> [more ->]]]; [done | by exists more].
Qed.

(** X3. When no text token follows the tag that arms the scanner (an empty
    sentinel script at the end of the page), the call fails with the error
    that ended the stream, although the sentinel script is there. *)
Theorem parseRecipeProps_sentinel_without_text (e : StreamError)
  (pre rest : list Token) (tag : Token) :
  Forall (fun t => arms t = false) pre ->
  arms tag = true ->
  Forall (fun t => isText t = false) rest ->
  parseRecipeProps {| Tokens := pre ++ tag :: rest; Err := e |}
  = ([], Some (stream_error e)).
Proof.
  intros Hpre Htag Hrest. unfold parseRecipeProps. simpl Tokens. simpl Err.
  rewrite parseLoop_skip by done.
  destruct tag; try discriminate. simpl in *. rewrite Htag.
  by apply parseLoop_armed_fails.
Qed.

Lemma parseRecipeProps_sentinel_without_text_witness :
  parseRecipeProps
    {| Tokens := pagePrefix ++ sentinelTag :: emptySentinelTail; Err := io_EOF |}
  = ([], Some (stream_error io_EOF)).
Proof.
  apply (parseRecipeProps_sentinel_without_text io_EOF pagePrefix emptySentinelTail
           sentinelTag); [ | reflexivity | ]; repeat constructor.
Defined.

(** X4. A call that returns text has stopped reading: the same text is
    returned whatever tokens are appended to the document and however the
    stream then ends, a read error included. *)
Theorem parseRecipeProps_ignores_rest (r : Document) (text : bytes)
  (post : list Token) (e : StreamError) :
  parseRecipeProps r = (text, None) ->
  parseRecipeProps {| Tokens := Tokens r ++ post; Err := e |} = (text, None).
Proof. apply parseLoop_extend. Qed.

Lemma parseRecipeProps_ignores_rest_witness :
  parseRecipeProps
    {| Tokens := Tokens pageDoc ++ [sentinelTag; TextToken (B "{}")];
       Err := io_failure "unexpected EOF" |}
  = (pageJSON, None).
Proof.
  apply (parseRecipeProps_ignores_rest pageDoc pageJSON). reflexivity.
Defined.

End ScannerMore.

(** ** The navigator, continued *)

Section NavigatorMore.
Context `{E : Env}.

Lemma scrapeQueries_outcome (qs : list Query_t) (rs : Recipes) :
  scrapeQueries rs qs = Panicked indexPanic
  \/ (exists err, scrapeQueries rs qs = Returned ([], Some err))
  \/ (exists rs', scrapeQueries rs qs = Returned (rs', None)).
Proof.
  revert rs. induction qs as [ | q qs IH]; intros rs.
  { right. right. by exists rs. }
  destruct (decide (Data (State q) = [])) as [Ed | Hq].
  { left. by apply scrapeQueries_empty. }
  destruct (isObject q) eqn:Eo.
  - rewrite scrapeQueries_decode by done.
    destruct (json_Unmarshal_data (Data (State q))) as [d | err]; [apply IH | ].
    right. left. by exists err.
  - rewrite scrapeQueries_skip by done. apply IH.
Qed.

Lemma filter_isObject_none (qs : list Query_t) :
  Forall (fun q => isObject q = false) qs -> List.filter isObject qs = [].
Proof.
  induction 1 as [ | q qs Hq _ IH]; [done | ]. simpl. by rewrite Hq.
Qed.

(** X5. When the page has no sentinel script, [ScrapeRecipes] returns no
    recipes and the error that ended the stream of the page ([io.EOF] for a
    complete page); the JSON decoders are not consulted. *)
Theorem ScrapeRecipes_without_sentinel (body : Document) :
  http_Get recipesURL = inl body ->
  (forall t, In t (Tokens body) -> ~ isSentinel t) ->
  ScrapeRecipes = Returned ([], Some (stream_error (Err body))).
Proof.
  intros Hget Hbody. unfold ScrapeRecipes. fold recipesURL. rewrite Hget.
  by rewrite (parseRecipeProps_without_sentinel body Hbody).
Qed.

(** X6. [ScrapeRecipes] ends in one of three ways: the panic of the index
    out of range, an error with a [nil] slice, or recipes with a [nil]
    error. It never returns recipes together with an error. *)
Theorem ScrapeRecipes_outcome :
  ScrapeRecipes = Panicked indexPanic
  \/ (exists err, ScrapeRecipes = Returned ([], Some err))
  \/ (exists rs, ScrapeRecipes = Returned (rs, None)).
Proof.
  unfold ScrapeRecipes.
  destruct (http_Get _) as [body | err]; [ | right; left; by exists err].
  destruct (parseRecipeProps body) as [b [err | ]]; [right; left; by exists err | ].
  destruct (json_Unmarshal_payload b) as [p | err]; [ | right; left; by exists err].
  apply scrapeQueries_outcome.
Qed.

(** X7. The error returned is that of the first entry that passes the
    filter and fails to decode: the recipes of the entries before it are
    dropped and the entries after it are not looked at, whatever they
    hold. *)
Theorem ScrapeRecipes_first_decode_error (p : payload)
  (pre post : list Query_t) (q : Query_t) (e : error) :
  envelope p ->
  queriesOf p = pre ++ q :: post ->
  Forall nonEmpty pre -> Forall decodes pre ->
  isObject q = true ->
  json_Unmarshal_data (Data (State q)) = inr e ->
  ScrapeRecipes = Returned ([], Some e).
Proof.
  intros Henv Hqs Hne Hdec Ho He.
  rewrite (ScrapeRecipes_envelope p Henv), Hqs, scrapeQueries_app by done.
  by rewrite scrapeQueries_decode, He.
Qed.

(** X8. When every entry has data and none begins with ['{'] (in
    particular when there is no entry), [ScrapeRecipes] succeeds with a
    [nil] slice, whatever the decoder of the entries would do. *)
Theorem ScrapeRecipes_no_object (p : payload) :
  envelope p ->
  Forall nonEmpty (queriesOf p) ->
  Forall (fun q => isObject q = false) (queriesOf p) ->
  ScrapeRecipes = Returned ([], None).
Proof.
  intros Henv Hne Hno. rewrite (ScrapeRecipes_envelope p Henv).
  rewrite <- (app_nil_r (queriesOf p)), scrapeQueries_app.
  - by rewrite (filter_isObject_none _ Hno).
  - done.
  - eapply Forall_impl; [exact Hno | ]. unfold decodes. congruence.
Qed.

End NavigatorMore.

Lemma ScrapeRecipes_without_sentinel_witness :
  @ScrapeRecipes plainEnv = Returned ([], Some (stream_error io_EOF)).
Proof.
  apply (@ScrapeRecipes_without_sentinel plainEnv plainDoc); [reflexivity | ].
  intros t Ht. simpl in Ht.
  repeat (destruct Ht as [<- | Ht];
          [first [by intros [Hname _] | by intros []] | ]).
  destruct Ht.
Defined.

Lemma ScrapeRecipes_first_decode_error_witness :
  @ScrapeRecipes (fixtureEnv payloadBad)
  = Returned ([], Some (json_error
      "json: cannot unmarshal into Go value of type recipe.data")).
Proof.
  apply (@ScrapeRecipes_first_decode_error (fixtureEnv payloadBad) payloadBad
           [ {| State := {| Data := jsonItems ["A"; "B"] |} |};
             {| State := {| Data := B "[]" |} |} ]
           [ {| State := {| Data := jsonItems ["C"] |} |} ]
           {| State := {| Data := rawBad |} |}).
  - apply fixture_envelope.
  - reflexivity.
  - repeat constructor; discriminate.
  - repeat constructor; intros Ho; try discriminate Ho; eexists; reflexivity.
  - reflexivity.
  - reflexivity.
Defined.

Lemma ScrapeRecipes_no_object_witness :
  @ScrapeRecipes (fixtureEnv payloadNoObject) = Returned ([], None).
Proof.
  apply (@ScrapeRecipes_no_object (fixtureEnv payloadNoObject) payloadNoObject).
  - apply fixture_envelope.
  - repeat constructor; discriminate.
  - repeat constructor.
Defined.

(** ** The resolver, continued *)

Section ResolverMore.

Lemma ingredientName_skip (id : string) (pre rest : list Ingredient.t) :
  ~ known pre id -> ingredientName id (pre ++ rest) = ingredientName id rest.
Proof.
  unfold known. induction pre as [ | g pre IH]; simpl; [done | ].
  intros Hk. destruct (String.eqb id (Ingredient.ID g)) eqn:Eid.
  - apply String.eqb_eq in Eid. destruct Hk. by left.
  - apply IH. intros Hin. apply Hk. by right.
Qed.

(** X9. [ingredientName] returns a [nil] error exactly when some ingredient
    carries the identifier. It then returns the name of the first such
    ingredient, later ones with the same identifier being ignored; otherwise
    it returns the empty string and an error whose text holds the
    identifier. *)
Theorem ingredientName_first_match (id : string) (ingreds : list Ingredient.t) :
  (snd (ingredientName id ingreds) = None <-> known ingreds id)
  /\ (forall pre g post,
        ingreds = pre ++ g :: post -> Ingredient.ID g = id -> ~ known pre id ->
        ingredientName id ingreds = (Ingredient.Name g, None))
  /\ (~ known ingreds id ->
      ingredientName id ingreds
      = ("", Some (errors_New ("id " +:+ id +:+ " not found in ingredients list")))).
Proof.
  split; [ | split].
  - rewrite ingredientName_firstName, firstName_known.
    destruct (firstName id ingreds) as [name | ]; simpl.
    + split; [by exists name | done].
    + split; [done | by intros [? ?]].
  - intros pre g post -> Hg Hpre. rewrite ingredientName_skip by done.
    simpl. rewrite <- Hg. by rewrite String.eqb_refl.
  - intros Hk. rewrite ingredientName_firstName.
    destruct (firstName id ingreds) as [name | ] eqn:Hn; [ | done].
    destruct Hk. apply firstName_known. by exists name.
Qed.

Lemma ingredientName_first_match_witness :
  ingredientName "i1" pantry = ("Egg", None).
Proof.
  apply (proj1 (proj2 (ingredientName_first_match "i1" pantry))
           [Ingredient.make "i0" "Salt"] (Ingredient.make "i1" "Egg")
           [Ingredient.make "i2" "Milk"; Ingredient.make "i1" "Duck egg"]);
    [reflexivity | reflexivity | ].
  intros [H | []]. discriminate H.
Defined.

Lemma rangeYields_no_entries ingreds (ys : list Yield.t) :
  Forall (fun y => Yield.Ingredients y = []) ys ->
  rangeYields ingreds ys = (ys, None).
Proof.
  induction 1 as [ | y ys Hy _ IH]; [done | ]. simpl. rewrite Hy. simpl.
  rewrite IH. destruct y as [n a]. simpl in Hy. by subst.
Qed.

(** X10. A batch in which no yield has an entry (an empty batch, recipes
    without yields) is left as it is and the call returns [nil], even when
    the recipes have no ingredients. *)
Theorem YieldIDsToNames_no_entries (rs : Recipes) :
  Forall (fun r => Forall (fun y => Yield.Ingredients y = []) (Recipe.Yields r)) rs ->
  YieldIDsToNames rs = (rs, None).
Proof.
  induction 1 as [ | r rs Hr _ IH]; [done | ]. simpl.
  rewrite (rangeYields_no_entries _ _ Hr), IH. by destruct r.
Qed.

Lemma YieldIDsToNames_no_entries_witness :
  YieldIDsToNames [recipeBare; Recipe.make "E" [] []]
  = ([recipeBare; Recipe.make "E" [] []], None).
Proof.
  apply (YieldIDsToNames_no_entries [recipeBare; Recipe.make "E" [] []]).
  repeat constructor.
Defined.

(** X11. A call on a batch is the call on its first part followed, when
    that returns [nil], by the call on the rest; when the first part fails
    the rest is left untouched and its error is the one returned. *)
Theorem YieldIDsToNames_app (rs1 rs2 : Recipes) :
  YieldIDsToNames (rs1 ++ rs2)
  = match YieldIDsToNames rs1 with
    | (rs1', Some err) => (rs1' ++ rs2, Some err)
    | (rs1', None) =>
        (rs1' ++ fst (YieldIDsToNames rs2), snd (YieldIDsToNames rs2))
    end.
Proof.
  induction rs1 as [ | r rs1 IH]; simpl.
  - by destruct (YieldIDsToNames rs2).
  - destruct (rangeYields _ _) as [ys [err | ]]; [done | ].
    rewrite IH. by destruct (YieldIDsToNames rs1) as [rs1' [err | ]].
Qed.

Lemma stoppedAt_unresolved (rs : Recipes) (f : Position.t) :
  firstUnknown rs f -> unresolved (stoppedAt f).
Proof.
  destruct f as [pre0 r0 post0 ypre0 y0 ypost0 epre0 x0 epost0].
  unfold firstUnknown, stoppedAt, unresolved. simpl.
  intros (_ & _ & _ & _ & _ & _ & Hx).
  apply Exists_app. right. apply Exists_cons_hd. destruct r0. simpl in *.
  apply Exists_app. right. apply Exists_cons_hd. simpl.
  apply Exists_app. right. by apply Exists_cons_hd.
Qed.

(** X17. A call that failed fails again on the batch it left: the entry
    it stopped at is still there, and the ingredients are the same. *)
Theorem YieldIDsToNames_fails_again (rs : Recipes) (e : error) :
  snd (YieldIDsToNames rs) = Some e ->
  exists e', snd (YieldIDsToNames (fst (YieldIDsToNames rs))) = Some e'.
Proof.
  intros He. destruct (resolvable_or_firstUnknown rs) as [Hr | [f Hf]].
  { apply YieldIDsToNames_success in Hr. congruence. }
  rewrite (YieldIDsToNames_stops rs f Hf). simpl.
  pose proof (stoppedAt_unresolved rs f Hf) as Hu.
  apply unresolved_not_resolvable in Hu. rewrite <- YieldIDsToNames_success in Hu.
  destruct (snd (YieldIDsToNames (stoppedAt f))) as [e' | ]; [by exists e' | done].
Qed.

Lemma YieldIDsToNames_fails_again_witness :
  exists e', snd (YieldIDsToNames (fst (YieldIDsToNames batchACB))) = Some e'.
Proof.
  apply (YieldIDsToNames_fails_again batchACB
           (errors_New "id i2 not found in ingredients list")).
  reflexivity.
Defined.

End ResolverMore.

Section LookupOrder.

Lemma ingredientName_unique (ingreds : list Ingredient.t) (g : Ingredient.t) :
  List.NoDup (map Ingredient.ID ingreds) -> In g ingreds ->
  ingredientName (Ingredient.ID g) ingreds = (Ingredient.Name g, None).
Proof.
  induction ingreds as [ | g0 ingreds IH]; simpl; [done | ].
  intros [Hg0 Hnd]%List.NoDup_cons_iff [-> | Hin].
  - by rewrite String.eqb_refl.
  - destruct (String.eqb (Ingredient.ID g) (Ingredient.ID g0)) eqn:Eid; [ | by apply IH].
    apply String.eqb_eq in Eid. destruct Hg0. rewrite <- Eid. by apply in_map.
Qed.

(** X12. When the identifiers of the ingredients are pairwise distinct, the
    order of the list does not matter to [ingredientName]: a reordered list
    gives the same name, or the same error. *)
Theorem ingredientName_permutation (id : string) (ingreds ingreds' : list Ingredient.t) :
  List.NoDup (map Ingredient.ID ingreds) ->
  Permutation ingreds ingreds' ->
  ingredientName id ingreds = ingredientName id ingreds'.
Proof.
  intros Hnd Hperm.
  assert (Hnd' : List.NoDup (map Ingredient.ID ingreds')).
  { eapply Permutation_NoDup; [ | exact Hnd]. by apply Permutation_map. }
  destruct (known_dec ingreds id) as [Hk | Hk].
  - apply in_map_iff in Hk as (g & <- & Hg).
    rewrite (ingredientName_unique ingreds g Hnd Hg).
    symmetry. apply ingredientName_unique; [done | ].
    by apply (Permutation_in _ Hperm).
  - assert (Hk' : ~ known ingreds' id).
    { intros Hin. apply Hk. unfold known in *.
      eapply Permutation_in; [ | exact Hin].
      apply Permutation_map. by symmetry. }
    rewrite !ingredientName_firstName.
    destruct (firstName id ingreds) as [n | ] eqn:E1.
    { destruct Hk. apply firstName_known. by exists n. }
    destruct (firstName id ingreds') as [n | ] eqn:E2; [ | done].
    destruct Hk'. apply firstName_known. by exists n.
Qed.

Lemma ingredientName_permutation_witness :
  ingredientName "i2"
    [Ingredient.make "i0" "Salt"; Ingredient.make "i2" "Milk"]
  = ingredientName "i2"
      [Ingredient.make "i2" "Milk"; Ingredient.make "i0" "Salt"].
Proof.
  apply ingredientName_permutation.
  - repeat constructor; simpl; intros H;
      repeat (destruct H as [H | H]; [discriminate H | ]); exact H.
  - apply perm_swap.
Defined.

End LookupOrder.

(** ** Collections *)

Section Sitemap.
Context `{S : SitemapEnv}.

Lemma rangeURLs_map (collection : list string) (urls : list URL.t) :
  rangeURLs collection urls = collection ++ map URL.LOC urls.
Proof.
  revert collection. induction urls as [ | url urls IH]; intros collection; simpl.
  - by rewrite app_nil_r.
  - by rewrite IH, <- app_assoc.
Qed.

(** X13. [Collections] returns a [nil] error exactly when the sitemap is
    fetched, read to its end and decoded; it then returns the [LOC] of
    every entry of the sitemap, in the order of the sitemap and nothing
    else of the entries. With an error it returns a [nil] slice. *)
Theorem Collections_locs :
  (forall cs,
     Collections = (cs, None) <->
     exists body b urlset,
       http_Get_body "https://www.hellofresh.com/sitemap_recipe_collections.xml" = inl body
       /\ io_ReadAll body = (b, None)
       /\ xml_Unmarshal b = inl urlset
       /\ cs = map URL.LOC (URLSet.URLs urlset))
  /\ (forall cs err, Collections = (cs, Some err) -> cs = []).
Proof.
  unfold Collections. split.
  - intros cs. split.
    + destruct (http_Get_body _) as [body | err]; [ | done].
      destruct (io_ReadAll body) as [b [err | ]] eqn:Er; [done | ].
      destruct (xml_Unmarshal b) as [urlset | err] eqn:Ex; [ | done].
      rewrite rangeURLs_map. intros [= <-]. by exists body, b, urlset.
    + intros (body & b & urlset & -> & -> & -> & ->). by rewrite rangeURLs_map.
  - intros cs err.
    destruct (http_Get_body _) as [body | e]; [ | by intros [= <- _]].
    destruct (io_ReadAll body) as [b [e | ]]; [by intros [= <- _] | ].
    destruct (xml_Unmarshal b) as [urlset | e]; [done | by intros [= <- _]].
Qed.

End Sitemap.

Lemma Collections_locs_witness :
  @Collections fixtureSitemap
  = (["https://www.hellofresh.com/recipes/quick";
      "https://www.hellofresh.com/recipes/vegan"], None).
Proof.
  apply (proj1 (@Collections_locs fixtureSitemap)).
  exists (B "<urlset/>"), (B "<urlset/>"), sitemap. repeat split; reflexivity.
Defined.

(** ** The command *)

Section Command.
Context `{E : Env} `{S : SitemapEnv} `{M : MainEnv}.

Lemma trace_bind {A B : Type} (m : Run A) (k : A -> Run B) :
  trace (m ≫= k)
  = match value m with
    | None => trace m
    | Some a => trace m ++ trace (k a)
    end.
Proof. unfold mbind, Run_bind. by destruct (value m). Qed.

Lemma value_bind {A B : Type} (m : Run A) (k : A -> Run B) :
  value (m ≫= k) = match value m with None => None | Some a => value (k a) end.
Proof. unfold mbind, Run_bind. by destruct (value m). Qed.

Lemma trace_mret_bind {A B : Type} (a : A) (k : A -> Run B) :
  trace (mret a ≫= k) = trace (k a).
Proof. by rewrite trace_bind. Qed.

Lemma trace_bind_prefix {A B : Type} (m : Run A) (k : A -> Run B) :
  exists tail, trace (m ≫= k) = trace m ++ tail.
Proof.
  rewrite trace_bind. destruct (value m) as [a | ]; [by eexists | ].
  exists []. by rewrite app_nil_r.
Qed.

Lemma In_trace_bind {A B : Type} (m : Run A) (k : A -> Run B) (e : Event) :
  In e (trace (m ≫= k)) ->
  In e (trace m) \/ exists a, value m = Some a /\ In e (trace (k a)).
Proof.
  rewrite trace_bind. destruct (value m) as [a | ]; [ | by left].
  intros [? | ?]%in_app_or; [by left | right; by exists a].
Qed.

Lemma value_bind_Some {A B : Type} (m : Run A) (k : A -> Run B) (b : B) :
  value (m ≫= k) = Some b -> exists a, value m = Some a /\ value (k a) = Some b.
Proof.
  rewrite value_bind. destruct (value m) as [a | ]; [ | done]. by exists a.
Qed.

Lemma rangeCollections_concat (data : bytes) (cs : list string) :
  rangeCollections data cs = data ++ concat (map (fun c => B (c +:+ newline)) cs).
Proof.
  revert data. induction cs as [ | c cs IH]; intros data; simpl.
  - by rewrite app_nil_r.
  - by rewrite IH, <- app_assoc.
Qed.

Lemma YieldIDsToNames_nil_error (rs rs' : Recipes) :
  YieldIDsToNames rs = (rs', None) ->
  Forall resolvableRecipe rs /\ rs' = map resolveRecipe rs.
Proof.
  intros H. assert (Hr : Forall resolvableRecipe rs).
  { apply YieldIDsToNames_success. by rewrite H. }
  split; [done | ]. rewrite (YieldIDsToNames_resolved rs Hr) in H. by injection H as <-.
Qed.

(** The scraping branch makes no call to [output.Write]. *)
Lemma scrapeData_no_write (f : Flags) (data : bytes) :
  ~ In (output_Write data) (trace (scrapeData f)).
Proof.
  unfold scrapeData. intros H.
  repeat (apply In_trace_bind in H as [H | (? & _ & H)]);
    repeat case_match; simpl in H; intuition discriminate.
Qed.

(** What the scraping branch hands over when it does not end the run. *)
Lemma scrapeData_value (f : Flags) (data : bytes) :
  value (scrapeData f) = Some data ->
  exists rs,
    ScrapeRecipesAt (pageOf f) = Returned (rs, None)
    /\ (yieldIDsToNames f = true -> Forall resolvableRecipe rs)
    /\ json_MarshalIndent (if yieldIDsToNames f then map resolveRecipe rs else rs)
       = inl data.
Proof.
  unfold scrapeData.
  intros (page & Hpage & (rs & Hrs & (rs' & Hrs' & Hdata)%value_bind_Some)%value_bind_Some)%value_bind_Some.
  assert (page = pageOf f) as ->.
  { unfold pageOf. repeat case_match; simpl in Hpage; by simplify_eq. }
  destruct (ScrapeRecipesAt (pageOf f)) as [[rs0 [err | ]] | msg]; simpl in Hrs; try done.
  injection Hrs as ->. exists rs. split; [done | ].
  destruct (yieldIDsToNames f).
  - destruct (YieldIDsToNames rs) as [rs1 [err | ]] eqn:Ey; simpl in Hrs'; [done | ].
    injection Hrs' as ->. apply YieldIDsToNames_nil_error in Ey as [Hr ->].
    split; [done | ]. revert Hdata.
    destruct (json_MarshalIndent _) as [d | e]; simpl; [by intros [= ->] | done].
  - simpl in Hrs'. injection Hrs' as ->. split; [done | ]. revert Hdata.
    destruct (json_MarshalIndent _) as [d | e]; simpl; [by intros [= ->] | done].
Qed.

(** X14. Whatever [main] hands to [output.Write] when it scrapes is the
    encoding of the batch [ScrapeRecipes] returned for the page, resolved
    throughout when [-y] is given: a batch that [YieldIDsToNames] left
    partly rewritten is never written. *)
Theorem main_writes_whole_batch (f : Flags) (data : bytes) :
  listFlag f = false ->
  In (output_Write data) (trace (main f)) ->
  exists rs,
    ScrapeRecipesAt (pageOf f) = Returned (rs, None)
    /\ (yieldIDsToNames f = true -> Forall resolvableRecipe rs)
    /\ json_MarshalIndent (if yieldIDsToNames f then map resolveRecipe rs else rs)
       = inl data.
Proof.
  intros Hl. unfold main. rewrite Hl. simpl andb. cbv iota.
  intros H.
  apply In_trace_bind in H as [[] | (_ & _ & H)].
  apply In_trace_bind in H as [[] | (_ & _ & H)].
  apply In_trace_bind in H as [H | (_ & _ & H)].
  { destruct (negb _); [ | destruct H].
    apply In_trace_bind in H as [[H | []] | (_ & _ & H)]; [discriminate H | ].
    unfold check in H. destruct (os_Create_result _); simpl in H; intuition discriminate. }
  apply In_trace_bind in H as [H | (d & Hd & H)].
  { by apply scrapeData_no_write in H. }
  apply In_trace_bind in H as [[H | []] | (_ & _ & H)].
  - injection H as ->. by apply scrapeData_value.
  - apply In_trace_bind in H as [H | (_ & _ & H)].
    { destruct (output_Write_result d); simpl in H; intuition discriminate. }
    apply In_trace_bind in H as [[H | []] | (_ & _ & H)]; [discriminate H | ].
    destruct output_Flush_result; simpl in H; intuition discriminate.
Qed.

(** X15. With [-l] alone, and the output file opened when [-o] is given,
    [main] hands to [output.Write] the collections [Collections] returned,
    in their order, each followed by a line feed. *)
Theorem main_lists_collections (f : Flags) (cs : list string) :
  listFlag f = true -> recipePage f = "" -> yieldIDsToNames f = false ->
  (oFlag f <> "" -> os_Create_result (oFlag f) = None) ->
  Collections = (cs, None) ->
  exists tail,
    trace (main f)
    = creates f ++ output_Write (concat (map (fun c => B (c +:+ newline)) cs)) :: tail.
Proof.
  intros Hl Hp Hy Ho Hcs. unfold main, creates, listData.
  rewrite Hl, Hp, Hy, Hcs. simpl andb. cbv iota.
  rewrite rangeCollections_concat. simpl app at 1.
  destruct (String.eqb (oFlag f) "") eqn:Eo; simpl negb; cbv iota.
  - eexists. rewrite !trace_bind. simpl. reflexivity.
  - apply String.eqb_neq in Eo. rewrite (Ho Eo).
    eexists. rewrite !trace_bind. simpl. reflexivity.
Qed.

(** X16. The order of the checks of [main]. Conflicting flags end the run
    at once: no file is created and nothing is fetched. Otherwise the file
    of [-o] is created before anything else, and a page that
    [IsValidPage] rejects ends the run after the file is created and
    before the page is fetched. *)
Theorem main_order_of_checks (f : Flags) :
  (conflicting f = true ->
   trace (main f)
   = [log_Fatal (if String.eqb (recipePage f) "" then "cannot use -y with -l"
                 else "cannot use -p with -l")])
  /\ (conflicting f = false -> exists tail, trace (main f) = creates f ++ tail)
  /\ (listFlag f = false -> recipePage f <> "" -> recipePage f <> recipeHomePage ->
      (oFlag f <> "" -> os_Create_result (oFlag f) = None) ->
      IsValidPage (recipePage f) = (false, None) ->
      trace (main f)
      = creates f ++ [log_Fatal ("invalid recipe page: " +:+ recipePage f)]).
Proof.
  unfold conflicting, creates. split; [ | split].
  - unfold main. destruct (listFlag f); [ | done]. simpl andb.
    destruct (String.eqb (recipePage f) ""); simpl negb; simpl orb.
    + by intros ->.
    + done.
  - unfold main. intros Hc.
    assert (H1 : listFlag f && negb (String.eqb (recipePage f) "") = false).
    { destruct (listFlag f); [ | done]. simpl in *. by apply orb_false_elim in Hc as [-> _]. }
    assert (H2 : listFlag f && yieldIDsToNames f = false).
    { destruct (listFlag f); [ | done]. simpl in *. by apply orb_false_elim in Hc as [_ ->]. }
    rewrite H1, H2, !trace_mret_bind.
    destruct (trace_bind_prefix
                (if negb (String.eqb (oFlag f) "")
                 then call (os_Create (oFlag f));; check (os_Create_result (oFlag f))
                 else mret tt)
                (fun _ => data ← (if listFlag f then listData else scrapeData f);
                          call (output_Write data);;
                          match output_Write_result data with
                          | Some err => fatal ("writing recipe output: " +:+ Error err)
                          | None => mret tt
                          end;;
                          call output_Flush;;
                          match output_Flush_result with
                          | Some err => fatal ("flushing recipe output: " +:+ Error err)
                          | None => mret tt
                          end)) as [tail ->].
    destruct (String.eqb (oFlag f) ""); simpl negb; cbv iota.
    + by exists tail.
    + rewrite trace_bind. simpl. by eexists.
  - intros Hl Hp Hh Ho Hv. unfold main, scrapeData. rewrite Hl, Hv.
    apply String.eqb_neq in Hp, Hh. rewrite Hp, Hh. simpl andb. simpl negb. cbv iota.
    destruct (String.eqb (oFlag f) "") eqn:Eo; simpl negb; cbv iota.
    + rewrite !trace_bind. simpl. reflexivity.
    + apply String.eqb_neq in Eo. rewrite (Ho Eo).
      rewrite !trace_bind. simpl. reflexivity.
Qed.

End Command.

Lemma main_writes_whole_batch_witness :
  exists rs,
    @ScrapeRecipesAt (fixtureEnv payloadAB) (pageOf flagsResolve) = Returned (rs, None)
    /\ (yieldIDsToNames flagsResolve = true -> Forall resolvableRecipe rs)
    /\ marshalIDs (map resolveRecipe rs) = B "Egg;Flour;".
Proof.
  destruct (@main_writes_whole_batch (fixtureEnv payloadAB) fixtureSitemap fixtureMain
              flagsResolve (B "Egg;Flour;") eq_refl) as (rs & Hrs & Hres & Hdata).
  - right. left. reflexivity.
  - exists rs. split; [exact Hrs | split; [exact Hres | ]].
    simpl in Hdata. by injection Hdata.
Defined.

Lemma main_lists_collections_witness :
  exists tail,
    trace (@main (fixtureEnv payloadAB) fixtureSitemap fixtureMain flagsList)
    = output_Write
        (B ("https://www.hellofresh.com/recipes/quick" +:+ newline)
         ++ B ("https://www.hellofresh.com/recipes/vegan" +:+ newline))
      :: tail.
Proof.
  destruct (@main_lists_collections (fixtureEnv payloadAB) fixtureSitemap fixtureMain
              flagsList
              ["https://www.hellofresh.com/recipes/quick";
               "https://www.hellofresh.com/recipes/vegan"]
              eq_refl eq_refl eq_refl (fun _ => eq_refl) eq_refl) as [tail Ht].
  exists tail. rewrite Ht. reflexivity.
Defined.

Lemma main_order_of_checks_witness :
  trace (@main (fixtureEnv payloadAB) fixtureSitemap fixtureMain flagsInvalid)
  = [os_Create "out.json"; log_Fatal "invalid recipe page: https://example.com"].
Proof.
  apply (proj2 (proj2 (@main_order_of_checks (fixtureEnv payloadAB) fixtureSitemap
                         fixtureMain flagsInvalid)));
    try reflexivity; discriminate.
Defined.
